(** * NewsBiasDetector: the response-recovery pipeline, the history log and
      the content extractor of the browser extension

    A shallow embedding of [src/bias-detector/service-worker.js] and
    [src/bias-detector/content-script.js].

    JavaScript strings are sequences of UTF-16 code units; a code unit is a
    number [N] here and a string a list of them, so that [length], [firstn]
    and the whitespace class [\s] mean what they mean in the source. *)

From Stdlib Require Import List NArith ZArith Bool Arith Lia String Ascii.
Import ListNotations.

Set Implicit Arguments.

(* ================================================================== *)
(** ** Code units and the string primitives the source calls *)
(* ================================================================== *)

Module Text.

Definition char := N.
Definition text := list char.

(** A Rocq string literal read as a JavaScript string (one code unit per
    character; only used for ASCII literals). *)
Definition str (s : string) : text :=
  List.map N_of_ascii (list_ascii_of_string s).

(** A literal for a reply text: an apostrophe stands for a double quote
    and a tilde for a line feed. *)
Definition js (s : string) : text :=
  List.map (fun c => if (c =? 39)%N then 34%N
                     else if (c =? 126)%N then 10%N else c) (str s).

Definition c_tab : char := 9%N.
Definition c_nl : char := 10%N.
Definition c_cr : char := 13%N.
Definition c_space : char := 32%N.
Definition c_quote : char := 34%N.       (* the double quote *)
Definition c_slash : char := 47%N.       (* / *)
Definition c_lbracket : char := 91%N.    (* [ *)
Definition c_backslash : char := 92%N.
Definition c_rbracket : char := 93%N.    (* ] *)
Definition c_backtick : char := 96%N.
Definition c_lbrace : char := 123%N.     (* { *)
Definition c_rbrace : char := 125%N.     (* } *)

Definition in_range (lo hi c : char) : bool := ((lo <=? c) && (c <=? hi))%N.

(** The class [\s] of a JavaScript regular expression, which is also what
    [String.prototype.trim] removes: WhiteSpace and LineTerminator. *)
Definition is_space (c : char) : bool :=
  (in_range 9%N 13%N c                   (* TAB LF VT FF CR *)
   || (c =? 32) || (c =? 160)        (* SP NBSP *)
   || (c =? 5760)                    (* U+1680 *)
   || in_range 8192%N 8202%N c           (* U+2000 .. U+200A *)
   || (c =? 8232) || (c =? 8233)     (* LS PS *)
   || (c =? 8239) || (c =? 8287)     (* U+202F U+205F *)
   || (c =? 12288) || (c =? 65279))%N.  (* U+3000 U+FEFF *)

Fixpoint starts_with (p s : text) : bool :=
  match p, s with
  | [], _ => true
  | _ :: _, [] => false
  | a :: p', b :: s' => (a =? b)%N && starts_with p' s'
  end.

Fixpoint drop_while (f : char -> bool) (s : text) : text :=
  match s with
  | [] => []
  | c :: s' => if f c then drop_while f s' else s
  end.

(** [s.trim()] *)
Definition trim (s : text) : text :=
  rev (drop_while is_space (rev (drop_while is_space s))).

(** [s.replace(/\s+/g, ' ')]: every maximal run of whitespace becomes one
    space. [in_run] says that the previous code unit was whitespace. *)
Fixpoint collapse_from (in_run : bool) (s : text) : text :=
  match s with
  | [] => []
  | c :: s' =>
      if is_space c
      then (if in_run then collapse_from true s'
            else c_space :: collapse_from true s')
      else c :: collapse_from false s'
  end.

Definition collapse_ws (s : text) : text := collapse_from false s.

(** [s.replace(/\n/g, ' ')] *)
Definition newlines_to_spaces (s : text) : text :=
  List.map (fun c => if (c =? c_nl)%N then c_space else c) s.

(** [(s.match(/c/g) || []).length] for a single code unit [c]. *)
Definition count (c : char) (s : text) : nat := count_occ N.eq_dec s c.

(** The suffix of [s] that starts at the first [c]; empty when there is none. *)
Fixpoint from_first (c : char) (s : text) : text :=
  match s with
  | [] => []
  | d :: s' => if (d =? c)%N then s else from_first c s'
  end.

(** The prefix of [s] that ends at the last [c]; empty when there is none. *)
Definition upto_last (c : char) (s : text) : text :=
  rev (from_first c (rev s)).

(** [s.split(sep)] for a single code unit separator: the pieces between
    separators, in order (always at least one piece). *)
Fixpoint split_acc (sep : char) (cur : text) (s : text) : list text :=
  match s with
  | [] => [rev cur]
  | c :: s' =>
      if (c =? sep)%N then rev cur :: split_acc sep [] s'
      else split_acc sep (c :: cur) s'
  end.

Definition split (sep : char) (s : text) : list text := split_acc sep [] s.

End Text.
Import Text.

(* ================================================================== *)
(** ** Stages 1-4 of the recovery pipeline (text to candidate text) *)
(* ================================================================== *)

Module Stages.

Definition fence : text := Eval cbv in str "```".
Definition fence_json : text := Eval cbv in str "```json".
Definition fence_json_nl : text := Eval cbv in (str "```json" ++ [c_nl]).
Definition nl_fence : text := Eval cbv in (c_nl :: str "```").

(** The code units the fence pattern is made of. *)
Definition fence_chars : list char := fence_json_nl.

(** Length of the match of [/```json\n?|\n?```/] anchored at the head of
    [s], [0] when it does not match there. The alternatives are tried in
    order and [\n?] is greedy. *)
Definition fence_match (s : text) : nat :=
  if starts_with fence_json_nl s then 8
  else if starts_with fence_json s then 7
  else if starts_with nl_fence s then 4
  else if starts_with fence s then 3
  else 0.

(** The global replace by the empty string: scan left to right, delete
    each match, resume after it. [skip] code units of a match are still
    to be deleted. *)
Fixpoint delete_fences (skip : nat) (s : text) : text :=
  match s with
  | [] => []
  | c :: s' =>
      match skip with
      | S k => delete_fences k s'
      | O =>
          match fence_match s with
          | O => c :: delete_fences 0 s'
          | S k => delete_fences k s'
          end
      end
  end.

(** Stage 1: [responseText.replace(/```json\n?|\n?```/g, '').trim()] *)
Definition strip_fences (s : text) : text := trim (delete_fences 0 s).

(** Stage 2: [cleanedText.match(/\{[\s\S]*\}/)]: from the first ['{'] that
    has a ['}'] after it, greedily to the last ['}']. *)
Definition isolate_object (s : text) : option text :=
  match from_first c_lbrace s with
  | [] => None
  | b :: t =>
      match upto_last c_rbrace t with
      | [] => None
      | u => Some (b :: u)
      end
  end.

(** [if (jsonMatch) cleanedText = jsonMatch[0]]: without a match the text
    goes on unchanged. *)
Definition isolate (s : text) : text :=
  match isolate_object s with
  | Some m => m
  | None => s
  end.

(** The callback of stage 3:
    [match.replace(/\n/g, ' ').replace(/\s+/g, ' ')] *)
Definition fix_string (m : text) : text :=
  collapse_ws (newlines_to_spaces m).

(** Stage 3: the global replace of the pattern (a double quote, any run of
    code units other than a double quote, a double quote) through
    [fix_string]. A match runs from a double quote to the next double quote;
    [inside] holds, reversed, what was read since an opening quote that
    still waits for its partner.
    A last quote without a partner is no match: it and what follows stay. *)
Fixpoint normalize_from (inside : option text) (s : text) : text :=
  match s with
  | [] =>
      match inside with
      | None => []
      | Some acc => c_quote :: rev acc
      end
  | c :: s' =>
      match inside with
      | None =>
          if (c =? c_quote)%N then normalize_from (Some []) s'
          else c :: normalize_from None s'
      | Some acc =>
          if (c =? c_quote)%N
          then fix_string (c_quote :: rev acc ++ [c_quote])
                 ++ normalize_from None s'
          else normalize_from (Some (c :: acc)) s'
      end
  end.

Definition normalize_strings (s : text) : text := normalize_from None s.

(** Stage 4: count the four bracket characters over the whole text and
    append the missing closers, brackets first. *)
Definition balance_repair (s : text) : text :=
  let openBraces := count c_lbrace s in
  let closeBraces := count c_rbrace s in
  let openBrackets := count c_lbracket s in
  let closeBrackets := count c_rbracket s in
  let s1 :=
    if closeBrackets <? openBrackets
    then s ++ repeat c_rbracket (openBrackets - closeBrackets)
    else s in
  if closeBraces <? openBraces
  then s1 ++ repeat c_rbrace (openBraces - closeBraces)
  else s1.

(** The text handed to [JSON.parse]. *)
Definition candidate (responseText : text) : text :=
  balance_repair (normalize_strings (isolate (strip_fences responseText))).

End Stages.
Import Stages.

(* ================================================================== *)
(** ** JSON values and [JSON.parse] *)
(* ================================================================== *)

Module Json.

(** A JSON number literal denotes [mant * 10 ^ expo], negated when [neg];
    the literal is kept exactly and the rounding to a double is applied
    where the program observes it ([number_is_zero]). *)
Record number := { neg : bool; mant : N; expo : Z }.

#[local] Unset Elimination Schemes.
Inductive json :=
| JNull
| JBool (b : bool)
| JNumber (n : number)
| JString (s : text)
| JArray (elems : list json)
| JObject (members : list (text * json)).
#[local] Set Elimination Schemes.

Fixpoint text_eqb (a b : text) : bool :=
  match a, b with
  | [], [] => true
  | x :: a', y :: b' => (x =? y)%N && text_eqb a' b'
  | _, _ => false
  end.

(** Own properties of an object, in creation order, one entry per key. *)
Fixpoint obj_get (k : text) (ms : list (text * json)) : option json :=
  match ms with
  | [] => None
  | (k', v) :: ms' => if text_eqb k k' then Some v else obj_get k ms'
  end.

(** [o[k] = v]: an existing property keeps its place, a new one goes last. *)
Fixpoint obj_set (k : text) (v : json) (ms : list (text * json))
  : list (text * json) :=
  match ms with
  | [] => [(k, v)]
  | (k', v') :: ms' =>
      if text_eqb k k' then (k', v) :: ms' else (k', v') :: obj_set k v ms'
  end.

(** The literal rounds to the double zero: it is zero, or at most half of
    the least positive double, [2 ^ -1075] (the tie goes to the even
    neighbour, which is zero). The exact value of the literal is rounded;
    the freedom the language leaves beyond twenty significant digits is
    not used. *)
Definition number_is_zero (n : number) : bool :=
  ((mant n =? 0)%N
   || ((expo n <? 0)%Z
       && (mant n * 2 ^ 1075 <=? 10 ^ Z.to_N (- expo n))%N)).

(** ToBoolean of a property read; [None] is [undefined]. *)
Definition truthy (v : option json) : bool :=
  match v with
  | None => false
  | Some JNull => false
  | Some (JBool b) => b
  | Some (JNumber n) => negb (number_is_zero n)
  | Some (JString s) => match s with [] => false | _ :: _ => true end
  | Some (JArray _) => true
  | Some (JObject _) => true
  end.

(** *** Tokens *)

Inductive token :=
| TLBrace | TRBrace | TLBracket | TRBracket | TColon | TComma
| TString (s : text)
| TNumber (n : number)
| TTrue | TFalse | TNull.

Definition is_json_ws (c : char) : bool :=
  ((c =? 9) || (c =? 10) || (c =? 13) || (c =? 32))%N.

Definition is_digit (c : char) : bool := in_range 48%N 57%N c.

Definition is_lower (c : char) : bool := in_range 97%N 122%N c.

(** Code units that can occur in a number literal. *)
Definition is_num_char (c : char) : bool :=
  (is_digit c || (c =? 43) || (c =? 45) || (c =? 46)
   || (c =? 101) || (c =? 69))%N.

Definition hex_val (c : char) : option N :=
  if is_digit c then Some (c - 48)%N
  else if in_range 97%N 102%N c then Some (c - 87)%N
  else if in_range 65%N 70%N c then Some (c - 55)%N
  else None.

(** The single-character escapes of a string literal. *)
Definition escape_char (c : char) : option char :=
  (if c =? 34 then Some 34          (* quote *)
   else if c =? 92 then Some 92     (* backslash *)
   else if c =? 47 then Some 47     (* slash *)
   else if c =? 98 then Some 8      (* b *)
   else if c =? 102 then Some 12    (* f *)
   else if c =? 110 then Some 10    (* n *)
   else if c =? 114 then Some 13    (* r *)
   else if c =? 116 then Some 9     (* t *)
   else None)%N.

Fixpoint take_digits (s : text) : text * text :=
  match s with
  | [] => ([], [])
  | c :: s' =>
      if is_digit c
      then let (d, r) := take_digits s' in (c :: d, r)
      else ([], s)
  end.

Definition digits_value (ds : text) : N :=
  fold_left (fun a c => (a * 10 + (c - 48))%N) ds 0%N.

(** The whole of [s] as a number literal:
    an optional minus, an integer part without a superfluous leading zero,
    an optional fraction, an optional exponent. *)
Definition read_number (s : text) : option number :=
  let (sign, s1) :=
    match s with
    | c :: r => if (c =? 45)%N then (true, r) else (false, s)
    | [] => (false, s)
    end in
  let (ip, s2) := take_digits s1 in
  match ip with
  | [] => None
  | d :: more =>
      if (d =? 48)%N && negb (match more with [] => true | _ => false end)
      then None
      else
        let frac :=
          match s2 with
          | [] => Some ([], [])
          | c :: r =>
              if (c =? 46)%N
              then let (fp, s3) := take_digits r in
                   match fp with [] => None | _ :: _ => Some (fp, s3) end
              else Some ([], s2)
          end in
        match frac with
        | None => None
        | Some (fp, s3) =>
            let ex :=
              match s3 with
              | [] => Some 0%Z
              | c :: r =>
                  if ((c =? 101) || (c =? 69))%N
                  then
                    let (esign, r1) :=
                      match r with
                      | c' :: r' =>
                          if (c' =? 45)%N then (true, r')
                          else if (c' =? 43)%N then (false, r')
                          else (false, r)
                      | [] => (false, r)
                      end in
                    let (ed, rest) := take_digits r1 in
                    match ed, rest with
                    | _ :: _, [] =>
                        let e := Z.of_N (digits_value ed) in
                        Some (if esign then (- e)%Z else e)
                    | _, _ => None
                    end
                  else None
              end in
            match ex with
            | None => None
            | Some e =>
                Some {| neg := sign;
                        mant := digits_value (ip ++ fp);
                        expo := (e - Z.of_nat (List.length fp))%Z |}
            end
        end
  end.

Definition read_word (s : text) : option token :=
  if text_eqb s (str "true") then Some TTrue
  else if text_eqb s (str "false") then Some TFalse
  else if text_eqb s (str "null") then Some TNull
  else None.

(** Where the scanner is. Accumulators are reversed. *)
Inductive lex_mode :=
| LTop                              (* between tokens *)
| LStr (acc : text)                 (* in a string literal *)
| LEsc (acc : text)                 (* after a backslash in a string *)
| LUni (acc : text) (ds : list N)   (* in the hex digits of a \u escape *)
| LNum (acc : text)                 (* in a number literal *)
| LWord (acc : text).               (* in true, false or null *)

(** One code unit read between tokens. *)
Definition top_step (c : char) : option (list token * lex_mode) :=
  if is_json_ws c then Some ([], LTop)
  else if (c =? c_lbrace)%N then Some ([TLBrace], LTop)
  else if (c =? c_rbrace)%N then Some ([TRBrace], LTop)
  else if (c =? c_lbracket)%N then Some ([TLBracket], LTop)
  else if (c =? c_rbracket)%N then Some ([TRBracket], LTop)
  else if (c =? 58)%N then Some ([TColon], LTop)
  else if (c =? 44)%N then Some ([TComma], LTop)
  else if (c =? c_quote)%N then Some ([], LStr [])
  else if is_digit c || (c =? 45)%N then Some ([], LNum [c])
  else if is_lower c then Some ([], LWord [c])
  else None.

Definition emit (ts : list token) (rest : option (list token))
  : option (list token) :=
  option_map (fun r => ts ++ r) rest.

Fixpoint lex (m : lex_mode) (s : text) : option (list token) :=
  match s with
  | [] =>
      match m with
      | LTop => Some []
      | LNum acc => option_map (fun n => [TNumber n]) (read_number (rev acc))
      | LWord acc => option_map (fun t => [t]) (read_word (rev acc))
      | LStr _ | LEsc _ | LUni _ _ => None
      end
  | c :: s' =>
      match m with
      | LTop =>
          match top_step c with
          | Some (ts, m') => emit ts (lex m' s')
          | None => None
          end
      | LStr acc =>
          if (c =? c_quote)%N then emit [TString (rev acc)] (lex LTop s')
          else if (c =? c_backslash)%N then lex (LEsc acc) s'
          else if (c <? 32)%N then None
          else lex (LStr (c :: acc)) s'
      | LEsc acc =>
          match escape_char c with
          | Some e => lex (LStr (e :: acc)) s'
          | None => if (c =? 117)%N then lex (LUni acc []) s' else None
          end
      | LUni acc ds =>
          match hex_val c with
          | None => None
          | Some d =>
              match ds with
              | [d1; d2; d3] =>
                  lex (LStr ((((d1 * 16 + d2) * 16 + d3) * 16 + d)%N :: acc)) s'
              | _ => lex (LUni acc (ds ++ [d])) s'
              end
          end
      | LNum acc =>
          if is_num_char c then lex (LNum (c :: acc)) s'
          else
            match read_number (rev acc), top_step c with
            | Some n, Some (ts, m') => emit (TNumber n :: ts) (lex m' s')
            | _, _ => None
            end
      | LWord acc =>
          if is_lower c then lex (LWord (c :: acc)) s'
          else
            match read_word (rev acc), top_step c with
            | Some t, Some (ts, m') => emit (t :: ts) (lex m' s')
            | _, _ => None
            end
      end
  end.

(** *** The grammar, as a machine over tokens with an explicit stack *)

Inductive frame :=
| FArray (elems : list json)             (* an open array, elements reversed *)
| FObject (members : list (text * json)) (* an open object *)
| FKey (k : text).                       (* a name waiting for its value *)

Inductive expect :=
| EValue            (* a value must come *)
| EValueOrEnd       (* right after an opening bracket *)
| EKeyOrEnd         (* right after an opening brace *)
| EKey              (* after a comma in an object *)
| EColon (k : text) (* after a member name *)
| EAfter            (* after a value inside an array or object *)
| EDone (v : json). (* the top-level value is complete *)

(** A complete value [v] goes to the innermost open container. *)
Definition deliver (v : json) (stack : list frame)
  : option (expect * list frame) :=
  match stack with
  | [] => Some (EDone v, [])
  | FArray es :: rest => Some (EAfter, FArray (v :: es) :: rest)
  | FKey k :: FObject ms :: rest =>
      Some (EAfter, FObject (obj_set k v ms) :: rest)
  | _ => None
  end.

Definition start_value (t : token) (stack : list frame)
  : option (expect * list frame) :=
  match t with
  | TLBrace => Some (EKeyOrEnd, FObject [] :: stack)
  | TLBracket => Some (EValueOrEnd, FArray [] :: stack)
  | TString s => deliver (JString s) stack
  | TNumber n => deliver (JNumber n) stack
  | TTrue => deliver (JBool true) stack
  | TFalse => deliver (JBool false) stack
  | TNull => deliver JNull stack
  | TRBrace | TRBracket | TColon | TComma => None
  end.

Definition step (e : expect) (stack : list frame) (t : token)
  : option (expect * list frame) :=
  match e with
  | EValue => start_value t stack
  | EValueOrEnd =>
      match t, stack with
      | TRBracket, FArray es :: rest => deliver (JArray (rev es)) rest
      | TRBracket, _ => None
      | _, _ => start_value t stack
      end
  | EKeyOrEnd =>
      match t, stack with
      | TRBrace, FObject ms :: rest => deliver (JObject ms) rest
      | TString k, _ => Some (EColon k, stack)
      | _, _ => None
      end
  | EKey =>
      match t with
      | TString k => Some (EColon k, stack)
      | _ => None
      end
  | EColon k =>
      match t with
      | TColon => Some (EValue, FKey k :: stack)
      | _ => None
      end
  | EAfter =>
      match t, stack with
      | TComma, FArray _ :: _ => Some (EValue, stack)
      | TComma, FObject _ :: _ => Some (EKey, stack)
      | TRBracket, FArray es :: rest => deliver (JArray (rev es)) rest
      | TRBrace, FObject ms :: rest => deliver (JObject ms) rest
      | _, _ => None
      end
  | EDone _ => None
  end.

Fixpoint run (e : expect) (stack : list frame) (ts : list token)
  : option json :=
  match ts with
  | [] => match e, stack with EDone v, [] => Some v | _, _ => None end
  | t :: ts' =>
      match step e stack t with
      | Some (e', stack') => run e' stack' ts'
      | None => None
      end
  end.

(** [JSON.parse(s)]; [None] when it throws a SyntaxError. *)
Definition JSON_parse (s : text) : option json :=
  match lex LTop s with
  | Some ts => run EValue [] ts
  | None => None
  end.

End Json.
Import Json.

(* ================================================================== *)
(** ** Parse, validation and defaulting; the requester around them *)
(* ================================================================== *)

Module Recovery.

(** The failures of [callGeminiAPI], one constructor per [throw] site (the
    message is quoted), under the names the design document gives them.
    Every one of them leaves the function wrapped in
    [API call failed: ...], which keeps the kind. *)
Inductive error :=
| RequestFailed          (* Gemini API error: ... *)
| ContentBlocked         (* Content blocked by safety filters: ... ;
                            Response blocked by safety filters *)
| NoResponse             (* No response generated ... *)
| TruncatedResponse      (* Response incomplete - hit token limit ... *)
| InvalidUpstreamShape   (* Invalid response structure from Gemini API ... *)
| NoJsonFound            (* named by the design document; the source has
                            no throw site for it *)
| MalformedJson          (* Failed to parse API response as JSON: ... *)
| MissingRequiredField   (* API response missing required fields ... *)
| UncaughtTypeError.     (* a property read on undefined or null *)

Inductive result (A : Type) :=
| Ok (a : A)
| Err (e : error).
Arguments Ok {A} a.
Arguments Err {A} e.

Definition k_credibility_score : text := Eval cbv in str "credibility_score".
Definition k_reasoning_summary : text := Eval cbv in str "reasoning_summary".
Definition k_confidence : text := Eval cbv in str "confidence".
Definition k_political_leaning : text := Eval cbv in str "political_leaning".
Definition k_corroboration_analysis : text :=
  Eval cbv in str "corroboration_analysis".

Definition default_confidence : json :=
  JNumber {| neg := false; mant := 75; expo := 0 |}.
Definition s_Neutral : text := Eval cbv in str "Neutral".
Definition default_political_leaning : json := JString s_Neutral.
Definition default_corroboration : json := JArray [].

(** Stage 5: [JSON.parse(cleanedText)] inside the [try]; the [catch]
    rethrows every failure as the parse error. *)
Definition parse_stage (responseText : text) : result json :=
  match JSON_parse (candidate responseText) with
  | Some v => Ok v
  | None => Err MalformedJson
  end.

(** [x || d] on a property read. *)
Definition or_default (v : option json) (d : json) : json :=
  match v with
  | Some x => if truthy v then x else d
  | None => d
  end.

(** The values that the tests above take for a field that is not there:
    no property, [null], [false] or the empty string. *)
Definition blank (v : option json) : bool :=
  match v with
  | None | Some JNull | Some (JBool false) | Some (JString []) => true
  | _ => false
  end.

(** What one optional field of the returned record holds: the default
    [d] for a blank field, the field itself when it is truthy. *)
Definition defaulted (before after : option json) (d : json) : Prop :=
  (blank before = true -> after = Some d)
  /\ (truthy before = true -> after = before).

(** The three assignments that follow the validation, in order. *)
Definition apply_defaults (ms : list (text * json)) : list (text * json) :=
  let ms1 :=
    obj_set k_confidence
      (or_default (obj_get k_confidence ms) default_confidence) ms in
  let ms2 :=
    obj_set k_political_leaning
      (or_default (obj_get k_political_leaning ms1) default_political_leaning)
      ms1 in
  obj_set k_corroboration_analysis
    (or_default (obj_get k_corroboration_analysis ms2) default_corroboration)
    ms2.

(** Stage 6. The two property reads throw on [null], give [undefined] on
    an array, a string, a number or a boolean (none of them has such a
    property), and read the member of an object. *)
Definition validate (analysisData : json) : result json :=
  match analysisData with
  | JNull => Err UncaughtTypeError
  | JObject ms =>
      if negb (truthy (obj_get k_credibility_score ms))
         || negb (truthy (obj_get k_reasoning_summary ms))
      then Err MissingRequiredField
      else Ok (JObject (apply_defaults ms))
  | JBool _ | JNumber _ | JString _ | JArray _ => Err MissingRequiredField
  end.

(** The recovery pipeline: from the reply text to the returned record. *)
Definition recover (responseText : text) : result json :=
  match parse_stage responseText with
  | Ok v => validate v
  | Err e => Err e
  end.

End Recovery.
Import Recovery.

Module Requester.

(** The success envelope of the upstream service; an absent field is
    [None]. *)
Record part := { part_text : option text }.
Record content := { parts : option (list part) }.
Record candidate_t :=
  { finishReason : option text; cand_content : option content }.
Record promptFeedback_t := { blockReason : option text }.
Record envelope :=
  { candidates : option (list candidate_t);
    promptFeedback : option promptFeedback_t }.

(** What [fetch] delivered: [response.ok] false, or the decoded body. *)
Inductive http_reply :=
| HttpFailure
| HttpSuccess (data : envelope).

(** ToBoolean of a string-valued field that may be absent. *)
Definition present (s : option text) : bool :=
  match s with
  | Some (_ :: _) => true
  | _ => false
  end.

Definition is_reason (name : text) (s : option text) : bool :=
  match s with
  | Some r => text_eqb r name
  | None => false
  end.

Definition r_STOP : text := Eval cbv in str "STOP".
Definition r_SAFETY : text := Eval cbv in str "SAFETY".
Definition r_MAX_TOKENS : text := Eval cbv in str "MAX_TOKENS".

(** The finish-reason check on the first candidate. *)
Definition check_finish (c : candidate_t) : option error :=
  if present (finishReason c) && negb (is_reason r_STOP (finishReason c))
  then
    if is_reason r_SAFETY (finishReason c) then Some ContentBlocked
    else if is_reason r_MAX_TOKENS (finishReason c) then Some TruncatedResponse
    else None
  else None.

(** [candidate.content.parts[0].text] after the shape check. *)
Definition response_text (c : candidate_t) : result text :=
  match cand_content c with
  | None => Err InvalidUpstreamShape
  | Some ct =>
      match parts ct with
      | None => Err InvalidUpstreamShape
      | Some [] => Err UncaughtTypeError
      | Some (p :: _) =>
          match part_text p with
          | None => Err UncaughtTypeError
          | Some t => Ok t
          end
      end
  end.

(** The same envelope with the finish reason of its first candidate
    replaced. *)
Definition with_finish (r : option text) (data : envelope) : envelope :=
  {| candidates :=
       match candidates data with
       | Some (c :: rest) =>
           Some ({| finishReason := r; cand_content := cand_content c |}
                   :: rest)
       | other => other
       end;
     promptFeedback := promptFeedback data |}.

(** [callGeminiAPI] from the point where [fetch] has returned. *)
Definition callGeminiAPI (reply : http_reply) : result json :=
  match reply with
  | HttpFailure => Err RequestFailed
  | HttpSuccess data =>
      if match promptFeedback data with
         | Some pf => present (blockReason pf)
         | None => false
         end
      then Err ContentBlocked
      else
        match candidates data with
        | None | Some [] => Err NoResponse
        | Some (c :: _) =>
            match check_finish c with
            | Some e => Err e
            | None =>
                match response_text c with
                | Err e => Err e
                | Ok responseText => recover responseText
                end
            end
        end
  end.

End Requester.

(* ================================================================== *)
(** ** The history log kept in [chrome.storage.local] *)
(* ================================================================== *)

Module History.

Record HistoryEntry :=
  { url : text;
    title : option text;     (* [url.split('/')[2]], undefined when short *)
    score : option json;     (* [analysisData.credibility_score] *)
    timestamp : Z }.

(** The local storage area, as far as this program uses it; [None] is a
    key that was never written. *)
Record storage := { analysisHistory : option (list HistoryEntry) }.

(** [a.slice(-n)] *)
Definition slice_last (A : Type) (n : nat) (a : list A) : list A :=
  skipn (List.length a - n) a.

Definition make_entry (now : Z) (u : text) (analysisData : json)
  : HistoryEntry :=
  {| url := u;
     title := nth_error (split c_slash u) 2;
     score := match analysisData with
              | JObject ms => obj_get k_credibility_score ms
              | _ => None
              end;
     timestamp := now |}.

(** [saveToHistory(url, analysisData)], with the clock reading [now] that
    [Date.now()] returns, as a transition of the storage. *)
Definition saveToHistory (now : Z) (u : text) (analysisData : json)
    (st : storage) : storage :=
  let history :=
    match analysisHistory st with
    | Some h => h
    | None => []
    end in
  let history := history ++ [make_entry now u analysisData] in
  {| analysisHistory := Some (slice_last 20 history) |}.

(** What a reader of the storage sees: [result.analysisHistory || []]. *)
Definition log (st : storage) : list HistoryEntry :=
  match analysisHistory st with
  | Some h => h
  | None => []
  end.

Record save_call := { at_time : Z; for_url : text; with_data : json }.

Definition entry_of (c : save_call) : HistoryEntry :=
  make_entry (at_time c) (for_url c) (with_data c).

(** A sequence of calls, one after the other. *)
Definition save_all (calls : list save_call) (st : storage) : storage :=
  fold_left
    (fun s c => saveToHistory (at_time c) (for_url c) (with_data c) s)
    calls st.

End History.

(* ================================================================== *)
(** ** The two content extractors *)
(* ================================================================== *)

Module Extractor.

(** A page, as far as the extractors look at it: for a selector, the
    [innerText] of the first element it matches, if any; and the
    [innerText] of the body. *)
Record document :=
  { querySelector : string -> option text;
    body_innerText : text }.

Definition role_article : string :=
  Eval cbv in
    ("[role=" ++ String (ascii_of_nat 34) "article"
       ++ String (ascii_of_nat 34) "]")%string.

(** The selector list of [extractArticleContent] (service worker). *)
Definition sw_selectors : list string :=
  [ "article"; role_article; "main article"; ".article-content";
    ".post-content"; ".entry-content"; "main"; ".content" ]%string.

(** The selector list of [extractArticleText] (content script). *)
Definition cs_selectors : list string :=
  [ "article"; role_article; "main article"; ".article-content";
    ".post-content"; ".entry-content"; ".story-body"; ".article-body";
    "main"; ".content" ]%string.

Definition trimmed_length (t : text) : nat := List.length (trim t).

(** [!articleText || articleText.trim().length < min] *)
Definition insubstantial (min : nat) (articleText : text) : bool :=
  match articleText with
  | [] => true
  | _ :: _ => trimmed_length articleText <? min
  end.

(** The loop of the service worker: the first selector that matches an
    element ends it. *)
Fixpoint first_element (doc : document) (sels : list string) : option text :=
  match sels with
  | [] => None
  | s :: rest =>
      match querySelector doc s with
      | Some t => Some t
      | None => first_element doc rest
      end
  end.

(** [extractArticleContent], the function injected into the page. *)
Definition extractArticleContent (doc : document) : text :=
  let articleText :=
    match first_element doc sw_selectors with
    | Some t => t
    | None => []
    end in
  let articleText :=
    if insubstantial 100 articleText then body_innerText doc
    else articleText in
  firstn 3000 articleText.

(** The loop of the content script: every matched element overwrites
    [articleText]; only one with more than 200 trimmed code units ends
    the loop. *)
Fixpoint scan_selectors (doc : document) (sels : list string)
    (articleText : text) : text :=
  match sels with
  | [] => articleText
  | s :: rest =>
      match querySelector doc s with
      | Some t =>
          if 200 <? trimmed_length t then t
          else scan_selectors doc rest t
      | None => scan_selectors doc rest articleText
      end
  end.

(** [s.replace(/\n{3,}/g, '\n\n')]; [run] newlines were just read. *)
Definition flush_newlines (run : nat) : text :=
  if 3 <=? run then [c_nl; c_nl] else repeat c_nl run.

Fixpoint squeeze_newlines (run : nat) (s : text) : text :=
  match s with
  | [] => flush_newlines run
  | c :: s' =>
      if (c =? c_nl)%N then squeeze_newlines (S run) s'
      else flush_newlines run ++ c :: squeeze_newlines 0 s'
  end.

Definition clean_up (articleText : text) : text :=
  trim (squeeze_newlines 0 (collapse_ws articleText)).

(** [extractArticleText] of the content script. *)
Definition extractArticleText (doc : document) : text :=
  let articleText := scan_selectors doc cs_selectors [] in
  let articleText :=
    if insubstantial 200 articleText then body_innerText doc
    else articleText in
  firstn 5000 (clean_up articleText).

End Extractor.

(* ================================================================== *)
(** ** The string normalization of the design document, for comparison *)
(* ================================================================== *)

Module Reference.

(** Where a reader of JSON text is: outside the string literals, inside
    one ([in_run]: the previous code unit was whitespace), or right after
    a backslash inside one. *)
Inductive position :=
| Outside
| InLiteral (in_run : bool)
| Escaped.

(** Written from the words of the design document, not from the source:
    inside each string literal a run of whitespace becomes one space, and
    nothing outside the literals changes. A literal ends at the first quote
    that no backslash escapes; one that is cut off runs to the end. *)
Fixpoint literal_normalize (p : position) (s : text) : text :=
  match s with
  | [] => []
  | c :: s' =>
      match p with
      | Outside =>
          c :: literal_normalize
                 (if (c =? c_quote)%N then InLiteral false else Outside) s'
      | InLiteral in_run =>
          if (c =? c_quote)%N then c :: literal_normalize Outside s'
          else if (c =? c_backslash)%N then c :: literal_normalize Escaped s'
          else if is_space c
          then (if in_run then literal_normalize (InLiteral true) s'
                else c_space :: literal_normalize (InLiteral true) s')
          else c :: literal_normalize (InLiteral false) s'
      | Escaped => c :: literal_normalize (InLiteral false) s'
      end
  end.

(** Written from the words of the design document: the text of the first
    selector of the list that matches, the body text instead when none
    matches or when that text is shorter (trimmed) than the threshold, cut
    to the cap. *)
Definition claimed_extract (sels : list string) (threshold cap : nat)
    (doc : Extractor.document) : text :=
  firstn cap
    match Extractor.first_element doc sels with
    | Some t =>
        if Extractor.trimmed_length t <? threshold
        then Extractor.body_innerText doc
        else t
    | None => Extractor.body_innerText doc
    end.

End Reference.

(* ================================================================== *)
(** ** Concrete inputs used by the examples below *)
(* ================================================================== *)

Module Samples.
Import History Requester Extractor.

Definition call_n (n : nat) : save_call :=
  {| at_time := Z.of_nat n;
     for_url := str "https://example.org/a";
     with_data := JObject [] |}.

Definition reply_good : text :=
  js "{'credibility_score': 82, 'reasoning_summary': 'ok'}".

Definition parsed_good : list (text * json) :=
  [ (k_credibility_score, JNumber {| neg := false; mant := 82; expo := 0 |});
    (k_reasoning_summary, JString (str "ok")) ].

Definition reply_empty_summary : text :=
  js "{'credibility_score': 50, 'reasoning_summary': ''}".

Definition parsed_empty_summary : list (text * json) :=
  [ (k_credibility_score, JNumber {| neg := false; mant := 50; expo := 0 |});
    (k_reasoning_summary, JString []) ].

Definition reply_null_confidence : text :=
  js "{'credibility_score': 82, 'reasoning_summary': 'ok', 'confidence': null}".

Definition parsed_null_confidence : list (text * json) :=
  parsed_good ++ [ (k_confidence, JNull) ].

Definition reply_prose_only : text := js "no json here".

Definition reply_open_object : text :=
  js "{'credibility_score': 82, 'reasoning_summary': 'ok'".

(** A summary with an escaped quote before a raw line feed. *)
Definition text_escaped_quote : text :=
  js "{'credibility_score':82,'reasoning_summary':'a \'b~c'}".

(** An escaped quote in one literal, then spaces between the members. *)
Definition text_spaced_members : text :=
  js "{'a':'x\'y'  ,  'b':1}".

(** An object whose string value holds a brace, cut before its last brace. *)
Definition text_brace_in_string : text := js "{'a':'{'".

(** An object holding an array holding an object, cut after the number. *)
Definition text_nested_cut : text := js "{'a':[{'b':1".

Definition text_cut_array : text :=
  js "{'credibility_score': 40, 'reasoning_summary': 'Thin', "
    ++ js "'corroboration_analysis': [".

(** A page with a short article element and a long main element. *)
Definition page_short_article : document :=
  {| querySelector := fun s =>
       if String.eqb s "article" then Some (str "short")
       else if String.eqb s "main" then Some (repeat 120%N 201)
       else None;
     body_innerText := str "the whole page" |}.

(** A reply that opens a json-tagged fence and is cut inside the object. *)
Definition reply_fenced_open : text :=
  js "```json~{'credibility_score': 82, 'reasoning_summary': 'ok'".

(** The fenced reply of the design document, with a raw line feed in the
    summary. *)
Definition reply_fenced_linefeed : text :=
  js "```json~{'credibility_score': 82, 'reasoning_summary': "
    ++ js "'Well-sourced,~balanced'}~```".

Definition envelope_with (reason : string) (t : text) : envelope :=
  {| candidates :=
       Some [ {| finishReason := Some (str reason);
                 cand_content :=
                   Some {| parts := Some [ {| part_text := Some t |} ] |} |} ];
     promptFeedback := None |}.

End Samples.

(* ================================================================== *)
(** ** The analysis handler of the service worker *)
(* ================================================================== *)

Module Orchestration.
Import History Requester Extractor.

(** [chrome.storage.sync], as far as this program uses it. *)
Record sync_storage := { geminiApiKey : option text }.

(** What one run of [handleAnalysis] meets outside the program: the page
    of the tab ([None] when the script cannot be injected and
    [extractArticleContent] throws), the two storage areas, the reply that
    [fetch] delivers for a given article text, page address and key, and
    the reading of the clock when the entry is saved. *)
Record world :=
  { page : option document;
    sync : sync_storage;
    local : storage;
    network : text -> text -> text -> http_reply;
    clock : Z }.

(** The [error] strings that [handleAnalysis] sends back. *)
Inductive failure :=
| InsufficientContent    (* Could not extract sufficient article content *)
| MissingCredential      (* API key not found. Please save your API key *)
| ExtractionFailed       (* Failed to extract article content: ... *)
| ApiCallFailed (e : error).  (* API call failed: ... *)

(** The argument of [sendResponse]. *)
Inductive response :=
| Failed (f : failure)
| Succeeded (data : json).

(** [handleAnalysis(tabId, url, sendResponse)]: the response sent and the
    local storage it leaves. *)
Definition handleAnalysis (w : world) (u : text) : response * storage :=
  match page w with
  | None => (Failed ExtractionFailed, local w)
  | Some doc =>
      let articleText := extractArticleContent doc in
      if insubstantial 100 articleText
      then (Failed InsufficientContent, local w)
      else
        match geminiApiKey (sync w) with
        | Some (c :: k) =>
            match callGeminiAPI (network w articleText u (c :: k)) with
            | Err e => (Failed (ApiCallFailed e), local w)
            | Ok analysisData =>
                (Succeeded analysisData,
                 saveToHistory (clock w) u analysisData (local w))
            end
        | Some [] | None => (Failed MissingCredential, local w)
        end
  end.

End Orchestration.

(* ================================================================== *)
(** ** The popup: escaping, relative times, key and history handlers *)
(* ================================================================== *)

Module Popup.
Import History Orchestration.

Definition e_amp : text := Eval cbv in str "&amp;".
Definition e_lt : text := Eval cbv in str "&lt;".
Definition e_gt : text := Eval cbv in str "&gt;".
Definition e_quot : text := Eval cbv in str "&quot;".
Definition e_apos : text := Eval cbv in str "&#039;".

(** The callback of [escapeHtml]: the entity of one of the five code
    units; every other code unit is no match and stays. *)
Definition escape_unit (c : char) : text :=
  if (c =? 38)%N then e_amp
  else if (c =? 60)%N then e_lt
  else if (c =? 62)%N then e_gt
  else if (c =? 34)%N then e_quot
  else if (c =? 39)%N then e_apos
  else [c].

(** [escapeHtml(text)] for a string. *)
Definition escapeHtml (t : text) : text := flat_map escape_unit t.

Fixpoint uint_text (d : Decimal.uint) : text :=
  match d with
  | Decimal.Nil => []
  | Decimal.D0 r => 48%N :: uint_text r
  | Decimal.D1 r => 49%N :: uint_text r
  | Decimal.D2 r => 50%N :: uint_text r
  | Decimal.D3 r => 51%N :: uint_text r
  | Decimal.D4 r => 52%N :: uint_text r
  | Decimal.D5 r => 53%N :: uint_text r
  | Decimal.D6 r => 54%N :: uint_text r
  | Decimal.D7 r => 55%N :: uint_text r
  | Decimal.D8 r => 56%N :: uint_text r
  | Decimal.D9 r => 57%N :: uint_text r
  end.

(** An integer turned into a string, as [n + ' minutes ago'] does. *)
Definition decimal (n : Z) : text :=
  match n with
  | Z0 => [48%N]
  | Zpos p => uint_text (Pos.to_uint p)
  | Zneg p => 45%N :: uint_text (Pos.to_uint p)
  end.

Definition s_just_now : text := Eval cbv in str "Just now".
Definition s_minutes_ago : text := Eval cbv in str " minutes ago".
Definition s_hours_ago : text := Eval cbv in str " hours ago".
Definition s_days_ago : text := Eval cbv in str " days ago".

Section RelativeTime.

(** [new Date(timestamp).toLocaleDateString()], which depends on the
    locale of the browser. *)
Variable toLocaleDateString : Z -> text.

(** [getTimeAgo(timestamp)] when [Date.now()] reads [now]; both are whole
    numbers of milliseconds. *)
Definition getTimeAgo (now timestamp : Z) : text :=
  let seconds := ((now - timestamp) / 1000)%Z in
  if (seconds <? 60)%Z then s_just_now
  else if (seconds <? 3600)%Z then decimal (seconds / 60) ++ s_minutes_ago
  else if (seconds <? 86400)%Z then decimal (seconds / 3600) ++ s_hours_ago
  else if (seconds <? 604800)%Z then decimal (seconds / 86400) ++ s_days_ago
  else toLocaleDateString timestamp.

End RelativeTime.

(** The text of a history row: [escapeHtml(item.title || item.url)]. *)
Definition history_title (item : HistoryEntry) : text :=
  escapeHtml
    match title item with
    | Some (c :: t) => c :: t
    | Some [] | None => url item
    end.

Section HistoryView.

(** The element built for one entry (its time, title and score). *)
Variable row : Type.
Variable render : HistoryEntry -> row.

Inductive history_view :=
| NoHistoryYet
| Rows (rows : list row).

(** [loadHistory()]: what the history list shows. *)
Definition loadHistory (st : storage) : history_view :=
  match log st with
  | [] => NoHistoryYet
  | h => Rows (List.map render (rev h))
  end.

End HistoryView.

(** The click handler of the clear button; [confirmed] is the answer to
    the confirmation dialog. *)
Definition clearHistory (confirmed : bool) (st : storage) : storage :=
  if confirmed then {| analysisHistory := Some [] |} else st.

(** [showStatus(message, type)] *)
Inductive status :=
| StatusError (message : text)
| StatusSuccess (message : text).

Definition m_enter_key : text := Eval cbv in str "Please enter an API key".
Definition m_key_saved : text :=
  Eval cbv in str "API key saved successfully!".

(** The click handler of the save button on the content of the key
    field. *)
Definition saveApiKey (input : text) (s : sync_storage)
  : sync_storage * status :=
  match trim input with
  | [] => (s, StatusError m_enter_key)
  | c :: k => ({| geminiApiKey := Some (c :: k) |}, StatusSuccess m_key_saved)
  end.

End Popup.

(* ================================================================== *)
(** ** Notions the statements below use *)
(* ================================================================== *)

Module Notions.

(** Whether a collapse that started with [r] and has read [x] is inside a
    run of whitespace. *)
Definition in_run_after (r : bool) (x : text) : bool :=
  match rev x with
  | [] => r
  | c :: _ => is_space c
  end.

(** The same for what stage 3 has accumulated, which is reversed. *)
Definition ends_in_space (acc : text) : bool :=
  match acc with
  | [] => false
  | c :: _ => is_space c
  end.

End Notions.

(* ================================================================== *)
(** ** Further concrete inputs *)
(* ================================================================== *)

Module MoreSamples.
Import History Requester Extractor Orchestration Popup Samples.

Definition page_long_article : document :=
  {| querySelector := fun s =>
       if String.eqb s "article" then Some (repeat 120%N 150) else None;
     body_innerText := str "menu" |}.

Definition world_ready (reply : http_reply) : world :=
  {| page := Some page_long_article;
     sync := {| geminiApiKey := Some (str "k") |};
     local := {| analysisHistory := None |};
     network := fun _ _ _ => reply;
     clock := 1000%Z |}.

Definition url_example : text := str "https://example.org/news/1".


End MoreSamples.

(* ================================================================== *)
(** * Properties *)
(* ================================================================== *)

(** ** The model on a few inputs *)

Module Examples.
Import Samples.

Example parse_nested :
  JSON_parse (js "{'a': [1, 2.5e-3, true, null, {'b': 'x\u0041\n'}], 'a': -0}")
  = Some (JObject [(str "a", JNumber {| neg := true; mant := 0; expo := 0 |})]).
Proof. vm_compute. reflexivity. Qed.

Example parse_rejects :
  List.map JSON_parse
    [js ""; js "[01]"; js "[1,]"; js "{'a':1,}"; js "truefalse"; js "1 2";
     js "{'a' 1}"; js "'a~b'"]
  = repeat None 8.
Proof. vm_compute. reflexivity. Qed.

Example tiny_numbers_are_falsy :
  List.map (fun t => option_map (fun v => truthy (Some v)) (JSON_parse t))
    [js "0"; js "-0.0"; js "0e9"; js "2.4e-324"; js "2.5e-324"; js "1e400"]
  = [Some false; Some false; Some false; Some false; Some true; Some true].
Proof. vm_compute. reflexivity. Qed.

Example recover_fenced_linefeed :
  recover reply_fenced_linefeed
  = Ok (JObject
          [ (k_credibility_score,
             JNumber {| neg := false; mant := 82; expo := 0 |});
            (k_reasoning_summary, JString (str "Well-sourced, balanced"));
            (k_confidence, default_confidence);
            (k_political_leaning, default_political_leaning);
            (k_corroboration_analysis, default_corroboration) ]).
Proof. vm_compute. reflexivity. Qed.

Example delete_fences_after_prose :
  delete_fences 0 (js "Here:~```json~{}~```") = js "Here:json~{}".
Proof. vm_compute. reflexivity. Qed.

End Examples.

(** ** The history log is a sliding window over the appended entries *)

Module HistoryFacts.
Import History Samples.

Section Window.
Variable A : Type.
Implicit Types l m : list A.

Lemma slice_last_length n l : List.length (slice_last n l) <= n.
Proof. unfold slice_last. rewrite length_skipn. lia. Qed.

Lemma slice_last_short n l : List.length l <= n -> slice_last n l = l.
Proof.
  intros H. unfold slice_last.
  replace (List.length l - n) with 0 by lia. reflexivity.
Qed.

Lemma slice_last_full n l :
  n <= List.length l -> List.length (slice_last n l) = n.
Proof. intros H. unfold slice_last. rewrite length_skipn. lia. Qed.

(** Trimming before a further append changes nothing in the end. *)
Lemma slice_last_absorb n l m :
  slice_last n (slice_last n l ++ m) = slice_last n (l ++ m).
Proof.
  unfold slice_last.
  rewrite !length_app, length_skipn, !skipn_app, skipn_skipn, length_skipn.
  f_equal; f_equal; lia.
Qed.

Lemma slice_last_app_long n l m :
  n <= List.length m -> slice_last n (l ++ m) = slice_last n m.
Proof.
  intros H. unfold slice_last.
  rewrite length_app, skipn_app.
  rewrite skipn_all2 by lia. simpl. f_equal. lia.
Qed.

Lemma slice_last_suffix n l :
  firstn (List.length l - n) l ++ slice_last n l = l.
Proof. apply firstn_skipn. Qed.

End Window.

Lemma log_saveToHistory now u d st :
  log (saveToHistory now u d st)
  = slice_last 20 (log st ++ [make_entry now u d]).
Proof. reflexivity. Qed.

Lemma log_save_all calls : forall st,
  List.length (log st) <= 20 ->
  log (save_all calls st) = slice_last 20 (log st ++ List.map entry_of calls).
Proof.
  induction calls as [|c calls IH]; intros st Hst.
  - simpl. rewrite app_nil_r. symmetry. now apply slice_last_short.
  - simpl. rewrite IH.
    + rewrite log_saveToHistory, slice_last_absorb, <- app_assoc. reflexivity.
    + rewrite log_saveToHistory. apply slice_last_length.
Qed.

(** C8. Starting from a log of at most 20 entries, after any sequence of
    calls of [saveToHistory] the log has at most 20 entries and is the
    last 20 of all the entries ever appended, in insertion order: the
    appended sequence is the evicted (oldest) entries followed by the log;
    once more than 20 entries were appended in total the log has exactly
    20, and after 20 or more calls they are the last 20 of those calls. *)
Theorem history_bounded_fifo (st : storage) (calls : list save_call)
    (Hst : List.length (log st) <= 20) :
  let appended := log st ++ List.map entry_of calls in
  let final := log (save_all calls st) in
  List.length final <= 20
  /\ final = slice_last 20 appended
  /\ (exists evicted,
        appended = evicted ++ final
        /\ List.length evicted = List.length appended - 20)
  /\ (20 < List.length appended -> List.length final = 20)
  /\ (20 <= List.length calls ->
      final = slice_last 20 (List.map entry_of calls)).
Proof.
  intros appended final.
  assert (E : final = slice_last 20 appended)
    by (now apply log_save_all).
  repeat split.
  - rewrite E. apply slice_last_length.
  - exact E.
  - exists (firstn (List.length appended - 20) appended). split.
    + rewrite E. symmetry. apply slice_last_suffix.
    + rewrite length_firstn. lia.
  - intros H. rewrite E. apply slice_last_full. lia.
  - intros H. rewrite E. unfold appended.
    apply slice_last_app_long. now rewrite length_map.
Qed.

(** Twenty-five calls on a fresh storage: entries 0 to 4 are gone, 5 to 24
    remain in order. *)
Lemma history_bounded_fifo_witness :
  let st := {| analysisHistory := None |} in
  let calls := List.map call_n (seq 0 25) in
  List.length (log (save_all calls st)) <= 20
  /\ List.map timestamp (log (save_all calls st))
     = List.map Z.of_nat (seq 5 20).
Proof.
  intros st calls.
  assert (Hst : List.length (log st) <= 20) by (simpl; lia).
  destruct (history_bounded_fifo st calls Hst) as (H1 & H2 & _).
  split; [exact H1 | rewrite H2; reflexivity].
Defined.

End HistoryFacts.

(** ** Objects as maps *)

Module JsonFacts.

Lemma text_eqb_spec (a b : text) : reflect (a = b) (text_eqb a b).
Proof.
  revert b. induction a as [|x a IH]; intros [|y b]; simpl;
    try (constructor; congruence).
  destruct (N.eqb_spec x y) as [->|Hxy]; simpl.
  - destruct (IH b) as [->|Hab]; constructor; congruence.
  - constructor. congruence.
Qed.

Lemma text_eqb_refl (a : text) : text_eqb a a = true.
Proof. destruct (text_eqb_spec a a); congruence. Qed.

Lemma text_eqb_neq (a b : text) : a <> b -> text_eqb a b = false.
Proof. intros H. destruct (text_eqb_spec a b); congruence. Qed.

Lemma obj_get_set_same k v ms : obj_get k (obj_set k v ms) = Some v.
Proof.
  induction ms as [|[k' v'] ms IH]; simpl.
  - now rewrite text_eqb_refl.
  - destruct (text_eqb k k') eqn:E; simpl; rewrite E; auto.
Qed.

Lemma obj_get_set_other k k' v ms :
  text_eqb k k' = false -> obj_get k (obj_set k' v ms) = obj_get k ms.
Proof.
  intros Hk. induction ms as [|[k0 v0] ms IH]; simpl.
  - now rewrite Hk.
  - destruct (text_eqb_spec k' k0) as [->|Hne]; simpl.
    + now rewrite Hk.
    + now rewrite IH.
Qed.

Lemma blank_not_truthy v : blank v = true -> truthy v = false.
Proof.
  destruct v as [[| [|] | n | [|c s] | l | ms]|]; simpl;
    intros H; try discriminate; reflexivity.
Qed.

Lemma or_default_blank v d : blank v = true -> or_default v d = d.
Proof.
  intros H. unfold or_default. rewrite (blank_not_truthy _ H).
  now destruct v.
Qed.

Lemma or_default_truthy v d :
  truthy v = true -> Some (or_default v d) = v.
Proof.
  unfold or_default. destruct v as [x|]; intros H.
  - now rewrite H.
  - discriminate.
Qed.

End JsonFacts.

(** ** Validation and defaulting *)

Module RecoveryFacts.
Import JsonFacts Samples.

Lemma recover_object t ms :
  parse_stage t = Ok (JObject ms) ->
  recover t =
    if negb (truthy (obj_get k_credibility_score ms))
       || negb (truthy (obj_get k_reasoning_summary ms))
    then Err MissingRequiredField
    else Ok (JObject (apply_defaults ms)).
Proof. intros H. unfold recover. now rewrite H. Qed.

(** C1 (as the code has it). For a reply that parses to an object, the
    pipeline fails with [MissingRequiredField] when [credibility_score] or
    [reasoning_summary] is absent, null, false or the empty string; when
    both hold a truthy value (a number that is not zero, a string that is
    not empty, true, an array, an object) that failure is not raised and
    the pipeline returns a record. *)
Theorem required_fields_gate (t : text) (ms : list (text * json))
    (Hparse : parse_stage t = Ok (JObject ms)) :
  (blank (obj_get k_credibility_score ms) = true
   \/ blank (obj_get k_reasoning_summary ms) = true ->
   recover t = Err MissingRequiredField)
  /\ (truthy (obj_get k_credibility_score ms) = true ->
      truthy (obj_get k_reasoning_summary ms) = true ->
      recover t <> Err MissingRequiredField
      /\ exists r, recover t = Ok r).
Proof.
  rewrite (recover_object _ Hparse). split.
  - intros [H|H]; apply blank_not_truthy in H; rewrite H; simpl.
    + reflexivity.
    + now rewrite orb_true_r.
  - intros H1 H2. rewrite H1, H2. simpl. split; [discriminate | eauto].
Qed.

Lemma required_fields_gate_witness :
  recover reply_good <> Err MissingRequiredField
  /\ recover reply_empty_summary = Err MissingRequiredField.
Proof.
  split.
  - apply (required_fields_gate reply_good (ms := parsed_good));
      vm_compute; reflexivity.
  - apply (required_fields_gate reply_empty_summary
             (ms := parsed_empty_summary));
      [vm_compute; reflexivity | right; vm_compute; reflexivity].
Defined.

(** C1 as stated fails: this reply parses to an object in which both
    fields are present, and the pipeline still fails with
    [MissingRequiredField], because [reasoning_summary] is empty. *)
Lemma required_fields_presence_counterexample :
  parse_stage reply_empty_summary = Ok (JObject parsed_empty_summary)
  /\ ~ (recover reply_empty_summary = Err MissingRequiredField
        <-> (obj_get k_credibility_score parsed_empty_summary = None
             \/ obj_get k_reasoning_summary parsed_empty_summary = None)).
Proof.
  split; [vm_compute; reflexivity|].
  intros [H _].
  assert (E : recover reply_empty_summary = Err MissingRequiredField)
    by (vm_compute; reflexivity).
  destruct (H E) as [A|A]; vm_compute in A; discriminate.
Qed.

Lemma get_after_defaults k ms :
  text_eqb k k_confidence = false ->
  text_eqb k k_political_leaning = false ->
  text_eqb k k_corroboration_analysis = false ->
  obj_get k (apply_defaults ms) = obj_get k ms.
Proof.
  intros H1 H2 H3. unfold apply_defaults.
  now rewrite !obj_get_set_other.
Qed.

Lemma confidence_after_defaults ms :
  obj_get k_confidence (apply_defaults ms)
  = Some (or_default (obj_get k_confidence ms) default_confidence).
Proof.
  unfold apply_defaults.
  rewrite !obj_get_set_other by reflexivity.
  now rewrite obj_get_set_same.
Qed.

Lemma political_leaning_after_defaults ms :
  obj_get k_political_leaning (apply_defaults ms)
  = Some (or_default (obj_get k_political_leaning ms)
            default_political_leaning).
Proof.
  unfold apply_defaults.
  rewrite (@obj_get_set_other k_political_leaning k_corroboration_analysis)
    by reflexivity.
  rewrite obj_get_set_same.
  now rewrite (@obj_get_set_other k_political_leaning k_confidence)
    by reflexivity.
Qed.

Lemma corroboration_after_defaults ms :
  obj_get k_corroboration_analysis (apply_defaults ms)
  = Some (or_default (obj_get k_corroboration_analysis ms)
            default_corroboration).
Proof.
  unfold apply_defaults.
  rewrite obj_get_set_same.
  now rewrite !obj_get_set_other by reflexivity.
Qed.

Lemma defaulted_or_default v d : defaulted v (Some (or_default v d)) d.
Proof.
  split; intros H.
  - now rewrite or_default_blank.
  - now apply or_default_truthy.
Qed.

(** C2 (as the code has it). For a reply whose parsed object holds truthy
    [credibility_score] and [reasoning_summary], recovery succeeds and
    keeps those two; [confidence] is 75 when it is absent (or null, false,
    empty) and the supplied value when that is truthy; [political_leaning]
    is Neutral when absent (or null, false, empty) and the supplied value
    when truthy; [corroboration_analysis] is the empty sequence when absent
    (or null, false, empty), and a supplied sequence is returned as it is,
    whatever its entries. *)
Theorem optional_fields_defaulted (t : text) (ms : list (text * json))
    (Hparse : parse_stage t = Ok (JObject ms))
    (Hscore : truthy (obj_get k_credibility_score ms) = true)
    (Hsummary : truthy (obj_get k_reasoning_summary ms) = true) :
  exists ms',
    recover t = Ok (JObject ms')
    /\ obj_get k_credibility_score ms' = obj_get k_credibility_score ms
    /\ obj_get k_reasoning_summary ms' = obj_get k_reasoning_summary ms
    /\ defaulted (obj_get k_confidence ms) (obj_get k_confidence ms')
         default_confidence
    /\ defaulted (obj_get k_political_leaning ms)
         (obj_get k_political_leaning ms') default_political_leaning
    /\ defaulted (obj_get k_corroboration_analysis ms)
         (obj_get k_corroboration_analysis ms') default_corroboration
    /\ (forall entries,
          obj_get k_corroboration_analysis ms = Some (JArray entries) ->
          obj_get k_corroboration_analysis ms' = Some (JArray entries)).
Proof.
  exists (apply_defaults ms).
  rewrite (recover_object _ Hparse), Hscore, Hsummary. simpl.
  rewrite !get_after_defaults by reflexivity.
  rewrite confidence_after_defaults, political_leaning_after_defaults,
    corroboration_after_defaults.
  repeat split; try apply defaulted_or_default.
  intros entries H. now rewrite H.
Qed.

Lemma optional_fields_defaulted_witness :
  exists ms',
    recover reply_good = Ok (JObject ms')
    /\ obj_get k_confidence ms' = Some default_confidence
    /\ obj_get k_political_leaning ms' = Some default_political_leaning
    /\ obj_get k_corroboration_analysis ms' = Some default_corroboration.
Proof.
  destruct (optional_fields_defaulted reply_good (ms := parsed_good))
    as (ms' & H & _ & _ & [Hc _] & [Hp _] & [Ha _] & _);
    try (vm_compute; reflexivity).
  exists ms'. repeat split; auto.
Defined.

(** C2 as stated fails: [confidence] is present here, with the value null,
    and the returned record holds 75, not the supplied value. *)
Lemma supplied_confidence_counterexample :
  parse_stage reply_null_confidence = Ok (JObject parsed_null_confidence)
  /\ obj_get k_confidence parsed_null_confidence = Some JNull
  /\ ~ (exists ms',
          recover reply_null_confidence = Ok (JObject ms')
          /\ obj_get k_confidence ms'
             = obj_get k_confidence parsed_null_confidence).
Proof.
  repeat split; try (vm_compute; reflexivity).
  intros (ms' & H & E).
  vm_compute in H. injection H as <-. vm_compute in E. discriminate.
Qed.

Lemma validate_never_no_json v : validate v <> Err NoJsonFound.
Proof.
  destruct v; simpl; try discriminate.
  destruct (_ || _); discriminate.
Qed.

(** C3 (as the code has it). When the stripped reply has no span from an
    opening brace to a later closing brace, nothing fails at that point:
    the stripped text itself goes through string normalization, bracket
    repair and parsing, so the pipeline ends in [MalformedJson] when that
    text does not parse and in the outcome of validation when it does.
    [NoJsonFound] is never the outcome. *)
Theorem no_object_span_falls_through (t : text)
    (Hnone : isolate_object (strip_fences t) = None) :
  recover t =
    match JSON_parse (balance_repair (normalize_strings (strip_fences t))) with
    | Some v => validate v
    | None => Err MalformedJson
    end
  /\ recover t <> Err NoJsonFound.
Proof.
  assert (E : recover t =
    match JSON_parse (balance_repair (normalize_strings (strip_fences t))) with
    | Some v => validate v
    | None => Err MalformedJson
    end).
  { unfold recover, parse_stage, candidate, isolate. rewrite Hnone.
    now destruct (JSON_parse _). }
  split; [exact E|].
  rewrite E. destruct (JSON_parse _).
  - apply validate_never_no_json.
  - discriminate.
Qed.

Lemma no_object_span_falls_through_witness :
  recover reply_prose_only = Err MalformedJson
  /\ recover reply_prose_only <> Err NoJsonFound.
Proof.
  destruct (no_object_span_falls_through reply_prose_only) as [E N].
  - vm_compute. reflexivity.
  - split; [rewrite E; vm_compute; reflexivity | exact N].
Defined.

(** C3 as stated fails: neither of these replies has a brace-to-brace
    span; the first ends in [MalformedJson], the second (an object that
    lost its closing brace) is repaired and accepted. *)
Lemma no_json_found_counterexample :
  isolate_object (strip_fences reply_prose_only) = None
  /\ recover reply_prose_only = Err MalformedJson
  /\ isolate_object (strip_fences reply_open_object) = None
  /\ recover reply_open_object = Ok (JObject (apply_defaults parsed_good))
  /\ ~ (recover reply_prose_only = Err NoJsonFound)
  /\ ~ (recover reply_open_object = Err NoJsonFound).
Proof.
  repeat split; try (vm_compute; reflexivity);
    intros H; vm_compute in H; discriminate.
Qed.

End RecoveryFacts.

(** ** The finish reason of the first candidate *)

Module RequesterFacts.
Import Requester JsonFacts Samples.

Lemma check_finish_other (c : candidate_t) (r : text) :
  finishReason c = Some r ->
  r <> r_SAFETY -> r <> r_MAX_TOKENS ->
  check_finish c = None.
Proof.
  intros Hr H1 H2. unfold check_finish, is_reason. rewrite Hr.
  rewrite (text_eqb_neq H1), (text_eqb_neq H2).
  now destruct (_ && _).
Qed.

Lemma check_finish_stop (ct : option content) :
  check_finish {| finishReason := Some r_STOP; cand_content := ct |} = None.
Proof. reflexivity. Qed.

(** C10. When the first candidate carries a finish reason other than STOP,
    SAFETY and MAX_TOKENS, the finish-reason check lets it through, and the
    call returns what it returns for the same envelope with the reason
    STOP: unless the prompt feedback blocks, the text of the candidate is
    taken and handed to the recovery pipeline. *)
Theorem other_finish_reason_is_ignored
    (data : envelope) (c : candidate_t) (rest : list candidate_t) (r : text)
    (Hfirst : candidates data = Some (c :: rest))
    (Hreason : finishReason c = Some r)
    (Hstop : r <> r_STOP) (Hsafety : r <> r_SAFETY)
    (Hmax : r <> r_MAX_TOKENS) :
  check_finish c = None
  /\ callGeminiAPI (HttpSuccess data)
     = callGeminiAPI (HttpSuccess (with_finish (Some r_STOP) data))
  /\ (match promptFeedback data with
      | Some pf => present (blockReason pf)
      | None => false
      end = false ->
      callGeminiAPI (HttpSuccess data)
      = match response_text c with
        | Ok responseText => recover responseText
        | Err e => Err e
        end).
Proof.
  pose proof (check_finish_other c Hreason Hsafety Hmax) as Hcheck.
  split; [exact Hcheck|]. split.
  - unfold callGeminiAPI, with_finish. simpl. rewrite Hfirst.
    destruct (match promptFeedback data with
              | Some pf => present (blockReason pf) | None => false end);
      [reflexivity|].
    rewrite Hcheck, check_finish_stop. reflexivity.
  - intros Hblock. unfold callGeminiAPI. rewrite Hblock, Hfirst, Hcheck.
    reflexivity.
Qed.

Lemma other_finish_reason_is_ignored_witness :
  callGeminiAPI (HttpSuccess (envelope_with "RECITATION" reply_good))
  = callGeminiAPI (HttpSuccess (envelope_with "STOP" reply_good))
  /\ callGeminiAPI (HttpSuccess (envelope_with "RECITATION" reply_good))
     = recover reply_good.
Proof.
  destruct (other_finish_reason_is_ignored
              (envelope_with "RECITATION" reply_good)
              (r := str "RECITATION") eq_refl eq_refl)
    as (_ & H1 & H2); try (vm_compute; discriminate).
  split; [exact H1 | exact (H2 eq_refl)].
Defined.

End RequesterFacts.

(** ** String normalization and bracket repair *)

Module StageFacts.
Import Reference Samples.

(** C4 at an input with an escaped quote. The source pairs the opening
    quote of the summary with the escaped quote and leaves the last quote
    without a partner: the line feed inside the literal stays, the text is
    returned as it came and the pipeline ends in [MalformedJson]; the
    normalization of the design document turns the line feed into a space
    and its output parses. In the second text the source collapses the
    spaces between two members, outside every literal. *)
Lemma normalize_escaped_quote_divergence :
  normalize_strings text_escaped_quote = text_escaped_quote
  /\ literal_normalize Outside text_escaped_quote
     = js "{'credibility_score':82,'reasoning_summary':'a \'b c'}"
  /\ recover text_escaped_quote = Err MalformedJson
  /\ JSON_parse (literal_normalize Outside text_escaped_quote) <> None
  /\ normalize_strings text_spaced_members = js "{'a':'x\'y' , 'b':1}"
  /\ literal_normalize Outside text_spaced_members = text_spaced_members.
Proof.
  repeat split; try (vm_compute; reflexivity).
  vm_compute. discriminate.
Qed.

Lemma count_app c (a b : text) : count c (a ++ b) = count c a + count c b.
Proof. apply count_occ_app. Qed.

Lemma count_repeat_same c n : count c (repeat c n) = n.
Proof. apply count_occ_repeat_eq. reflexivity. Qed.

Lemma count_repeat_other c d n : d <> c -> count c (repeat d n) = 0.
Proof. intros H. apply count_occ_repeat_neq. congruence. Qed.

(** What stage 4 appends, for every text. *)
Lemma balance_repair_appends (s : text) :
  balance_repair s =
    s ++ repeat c_rbracket (count c_lbracket s - count c_rbracket s)
      ++ repeat c_rbrace (count c_lbrace s - count c_rbrace s).
Proof.
  unfold balance_repair.
  destruct (Nat.ltb_spec (count c_rbracket s) (count c_lbracket s)) as [H|H];
    destruct (Nat.ltb_spec (count c_rbrace s) (count c_lbrace s)) as [K|K].
  - now rewrite <- app_assoc.
  - replace (count c_lbrace s - count c_rbrace s) with 0 by lia.
    simpl. now rewrite app_nil_r.
  - replace (count c_lbracket s - count c_rbracket s) with 0 by lia.
    reflexivity.
  - replace (count c_lbracket s - count c_rbracket s) with 0 by lia.
    replace (count c_lbrace s - count c_rbrace s) with 0 by lia.
    simpl. now rewrite app_nil_r.
Qed.

(** C5 (as the code has it). Stage 4 goes by the number of braces and
    brackets in the whole text, string contents included. When a text that
    has as many opening as closing braces, and as many opening as closing
    brackets, lost a tail of closing brackets followed by closing braces,
    the stage appends exactly that tail: the repaired candidate is the
    original text and parses to what the original parses to. *)
Theorem balance_repair_restores_tail (pre : text) (a b : nat) :
  let original := pre ++ repeat c_rbracket a ++ repeat c_rbrace b in
  count c_lbrace original = count c_rbrace original ->
  count c_lbracket original = count c_rbracket original ->
  balance_repair pre = original
  /\ JSON_parse (balance_repair pre) = JSON_parse original.
Proof.
  intros original Hbrace Hbracket.
  assert (E : balance_repair pre = original).
  { unfold original in *.
    rewrite !count_app in Hbrace, Hbracket.
    rewrite !count_repeat_same in Hbrace, Hbracket.
    rewrite !count_repeat_other in Hbrace, Hbracket by discriminate.
    rewrite balance_repair_appends.
    repeat f_equal; lia. }
  split; [exact E | now rewrite E].
Qed.

Lemma balance_repair_restores_tail_witness :
  balance_repair text_cut_array
  = text_cut_array ++ [c_rbracket; c_rbrace]
  /\ JSON_parse (balance_repair text_cut_array) <> None.
Proof.
  destruct (balance_repair_restores_tail text_cut_array 1 1) as [E P];
    try (vm_compute; reflexivity).
  split; [exact E|].
  rewrite P. vm_compute. discriminate.
Defined.

(** C5 as stated fails. The first text lost exactly its final brace; a
    brace inside its string is counted too, two braces are appended and
    the result does not parse. The second lost a brace, a bracket and a
    brace, in that order; the bracket is appended first and the result
    does not parse. *)
Lemma balance_repair_counterexample :
  JSON_parse (text_brace_in_string ++ [c_rbrace]) <> None
  /\ balance_repair text_brace_in_string
     = text_brace_in_string ++ [c_rbrace; c_rbrace]
  /\ JSON_parse (balance_repair text_brace_in_string) = None
  /\ JSON_parse (text_nested_cut ++ [c_rbrace; c_rbracket; c_rbrace]) <> None
  /\ balance_repair text_nested_cut
     = text_nested_cut ++ [c_rbracket; c_rbrace; c_rbrace]
  /\ JSON_parse (balance_repair text_nested_cut) = None.
Proof.
  repeat split; try (vm_compute; reflexivity); vm_compute; discriminate.
Qed.

End StageFacts.

(** ** The content extractors *)

Module ExtractorFacts.
Import Extractor Reference Samples.

Lemma insubstantial_short min t :
  trimmed_length t < min -> insubstantial min t = true.
Proof.
  intros H. destruct t; [reflexivity|].
  simpl. now apply Nat.ltb_lt.
Qed.

Lemma insubstantial_long min t :
  min <= trimmed_length t -> 0 < min -> insubstantial min t = false.
Proof.
  intros H Hmin. destruct t as [|c t].
  - unfold trimmed_length in H. simpl in H. lia.
  - simpl. now apply Nat.ltb_ge.
Qed.

Lemma service_worker_as_claimed doc :
  extractArticleContent doc = claimed_extract sw_selectors 100 3000 doc.
Proof.
  unfold extractArticleContent, claimed_extract.
  destruct (first_element doc sw_selectors) as [[|c t]|]; reflexivity.
Qed.

(** The loop stops at the first selector whose element is substantial. *)
Lemma scan_selectors_found doc s t post : forall pre acc,
  (forall s' t', In s' pre -> querySelector doc s' = Some t' ->
                 trimmed_length t' <= 200) ->
  querySelector doc s = Some t ->
  200 < trimmed_length t ->
  scan_selectors doc (pre ++ s :: post) acc = t.
Proof.
  induction pre as [|s0 pre IH]; intros acc Hpre Hs Ht; simpl.
  - rewrite Hs. apply Nat.ltb_lt in Ht. now rewrite Ht.
  - destruct (querySelector doc s0) as [t0|] eqn:E0.
    + assert (H0 : trimmed_length t0 <= 200) by (eapply Hpre; simpl; eauto).
      apply Nat.ltb_ge in H0. rewrite H0.
      apply IH; auto. intros; eapply Hpre; simpl; eauto.
    + apply IH; auto. intros; eapply Hpre; simpl; eauto.
Qed.

(** Without such a selector the loop ends with an insubstantial text. *)
Lemma scan_selectors_none doc : forall sels acc,
  (forall s t, In s sels -> querySelector doc s = Some t ->
               trimmed_length t < 200) ->
  insubstantial 200 acc = true ->
  insubstantial 200 (scan_selectors doc sels acc) = true.
Proof.
  induction sels as [|s sels IH]; intros acc Hall Hacc; simpl; auto.
  destruct (querySelector doc s) as [t|] eqn:E.
  - assert (Ht : trimmed_length t < 200) by (eapply Hall; simpl; eauto).
    replace (200 <? trimmed_length t) with false
      by (symmetry; apply Nat.ltb_ge; lia).
    apply IH.
    + intros; eapply Hall; simpl; eauto.
    + now apply insubstantial_short.
  - apply IH; auto. intros; eapply Hall; simpl; eauto.
Qed.

(** C9 (as the code has it). The service worker returns, cut to 3000 code
    units, the text of the first selector of its list that matches an
    element, or the body text when no selector matches or that text has
    fewer than 100 code units once trimmed. The content script goes on
    past a matched element of at most 200 trimmed code units: it returns
    the text of the first selector whose element has more than 200, and the
    body text when every matched element has fewer than 200; its result is
    whitespace-normalized and trimmed before it is cut to 5000 code
    units. *)
Theorem extractors_select_and_cap :
  (forall doc,
     extractArticleContent doc = claimed_extract sw_selectors 100 3000 doc)
  /\ (forall doc,
        List.length (extractArticleContent doc) <= 3000
        /\ List.length (extractArticleText doc) <= 5000)
  /\ (forall doc pre s post t,
        cs_selectors = pre ++ s :: post ->
        (forall s' t', In s' pre -> querySelector doc s' = Some t' ->
                       trimmed_length t' <= 200) ->
        querySelector doc s = Some t ->
        200 < trimmed_length t ->
        extractArticleText doc = firstn 5000 (clean_up t))
  /\ (forall doc,
        (forall s t, In s cs_selectors -> querySelector doc s = Some t ->
                     trimmed_length t < 200) ->
        extractArticleText doc
        = firstn 5000 (clean_up (body_innerText doc))).
Proof.
  split; [exact service_worker_as_claimed|].
  split; [|split].
  - intros doc. unfold extractArticleContent, extractArticleText.
    split; apply firstn_le_length.
  - intros doc pre s post t Hsel Hpre Hs Ht.
    unfold extractArticleText. rewrite Hsel.
    rewrite (scan_selectors_found doc s post pre [] Hpre Hs Ht).
    rewrite insubstantial_long by lia. reflexivity.
  - intros doc Hall. unfold extractArticleText.
    rewrite (scan_selectors_none doc cs_selectors [] Hall eq_refl).
    reflexivity.
Qed.

Lemma extractors_select_and_cap_witness :
  extractArticleText page_short_article = repeat 120%N 201.
Proof.
  destruct extractors_select_and_cap as (_ & _ & H & _).
  rewrite (H page_short_article
             (firstn 8 cs_selectors) "main"%string [".content"%string]
             (repeat 120%N 201)).
  - vm_compute. reflexivity.
  - reflexivity.
  - intros s' t' Hin Hq. simpl in Hin.
    repeat (destruct Hin as [<-|Hin];
            [vm_compute in Hq; try discriminate;
             injection Hq as <-; vm_compute; lia|]).
    destruct Hin.
  - reflexivity.
  - vm_compute. lia.
Defined.

(** C9 as stated fails for the content script: the first selector that
    matches, article, has a short text, so the body text is claimed; the
    loop goes on instead and returns the text of main. *)
Lemma content_script_counterexample :
  first_element page_short_article cs_selectors = Some (str "short")
  /\ claimed_extract cs_selectors 200 5000 page_short_article
     = str "the whole page"
  /\ extractArticleText page_short_article = repeat 120%N 201
  /\ extractArticleText page_short_article
     <> claimed_extract cs_selectors 200 5000 page_short_article.
Proof.
  repeat split; try (vm_compute; reflexivity).
  vm_compute. discriminate.
Qed.

End ExtractorFacts.

(** ** Fence stripping and object isolation *)

Module FenceFacts.
Import Samples.

Lemma starts_with_length p : forall s,
  starts_with p s = true -> List.length p <= List.length s.
Proof.
  induction p as [|a p IH]; intros [|b s] H; simpl in *; try lia.
  apply andb_prop in H. destruct H as [_ H]. apply IH in H. lia.
Qed.

(** A pattern cannot reach across a code unit it does not contain. *)
Lemma starts_with_app_other p : forall x c y,
  ~ In c p -> starts_with p (x ++ c :: y) = starts_with p x.
Proof.
  induction p as [|a p IH]; intros x c y Hc; [now destruct x|].
  destruct x as [|b x]; simpl.
  - destruct (N.eqb_spec a c) as [->|]; [|reflexivity].
    exfalso. apply Hc. now left.
  - rewrite IH; [reflexivity|]. intros H. apply Hc. now right.
Qed.

Lemma fence_match_app_other x c y :
  ~ In c fence_chars -> fence_match (x ++ c :: y) = fence_match x.
Proof.
  intros Hc. unfold fence_match.
  rewrite !starts_with_app_other; [reflexivity| | | |];
    intros H; apply Hc; unfold fence_chars;
    cbv [fence fence_json nl_fence fence_json_nl In] in *; tauto.
Qed.

Lemma fence_match_le s : fence_match s <= List.length s.
Proof.
  unfold fence_match.
  destruct (starts_with fence_json_nl s) eqn:E1;
    [apply starts_with_length in E1; exact E1|].
  destruct (starts_with fence_json s) eqn:E2;
    [apply starts_with_length in E2; exact E2|].
  destruct (starts_with nl_fence s) eqn:E3;
    [apply starts_with_length in E3; exact E3|].
  destruct (starts_with fence s) eqn:E4;
    [apply starts_with_length in E4; exact E4|].
  lia.
Qed.

(** Deleting the fences of a text around a code unit that is no part of
    a fence is deleting them on each side. *)
Lemma delete_fences_split c y : ~ In c fence_chars ->
  forall x k, k <= List.length x ->
  delete_fences k (x ++ c :: y)
  = delete_fences k x ++ c :: delete_fences 0 y.
Proof.
  intros Hc. induction x as [|b x IH]; intros k Hk.
  - assert (k = 0) by (simpl in Hk; lia). subst k.
    cbn [app delete_fences].
    change (c :: y) with ([] ++ c :: y) at 1.
    rewrite fence_match_app_other by exact Hc. reflexivity.
  - destruct k as [|k]; cbn [app delete_fences].
    + change (b :: x ++ c :: y) with ((b :: x) ++ c :: y).
      rewrite fence_match_app_other by exact Hc.
      pose proof (fence_match_le (b :: x)) as Hle.
      destruct (fence_match (b :: x)) as [|n].
      * rewrite IH by lia. reflexivity.
      * apply IH. simpl in Hle. lia.
    + apply IH. simpl in Hk. lia.
Qed.

Lemma delete_fences_in c : forall s k,
  In c (delete_fences k s) -> In c s.
Proof.
  induction s as [|b s IH]; intros k H; [exact H|].
  destruct k as [|k]; cbn [delete_fences] in H.
  - destruct (fence_match (b :: s)).
    + destruct H as [->|H]; [now left | right; eauto].
    + right; eauto.
  - right; eauto.
Qed.

Lemma drop_while_in f c : forall s, In c (drop_while f s) -> In c s.
Proof.
  induction s as [|b s IH]; intros H; [exact H|].
  simpl in H. destruct (f b); [right; auto | exact H].
Qed.

Lemma drop_while_stop f c : f c = false ->
  forall a r, drop_while f (a ++ c :: r) = drop_while f a ++ c :: r.
Proof.
  intros Hc. induction a as [|b a IH]; intros r; simpl.
  - now rewrite Hc.
  - destruct (f b); [apply IH | reflexivity].
Qed.

Lemma trim_around c d a mid b :
  is_space c = false -> is_space d = false ->
  trim (a ++ c :: mid ++ d :: b)
  = drop_while is_space a ++ c :: mid ++ d
      :: rev (drop_while is_space (rev b)).
Proof.
  intros Hc Hd. unfold trim.
  rewrite (@drop_while_stop is_space c Hc).
  replace (rev (drop_while is_space a ++ c :: mid ++ d :: b))
    with (rev b ++ d :: rev (drop_while is_space a ++ c :: mid)).
  - rewrite (@drop_while_stop is_space d Hd).
    rewrite rev_app_distr. simpl. rewrite rev_involutive.
    rewrite <- !app_assoc. reflexivity.
  - symmetry.
    replace (drop_while is_space a ++ c :: mid ++ d :: b)
      with ((drop_while is_space a ++ c :: mid) ++ d :: b)
      by (now rewrite <- app_assoc).
    rewrite (rev_app_distr (drop_while is_space a ++ c :: mid)). simpl.
    rewrite <- app_assoc. reflexivity.
Qed.

Lemma from_first_skip c : forall a r,
  ~ In c a -> from_first c (a ++ c :: r) = c :: r.
Proof.
  induction a as [|b a IH]; intros r Hc; simpl.
  - now rewrite N.eqb_refl.
  - destruct (N.eqb_spec b c) as [->|].
    + exfalso. apply Hc. now left.
    + apply IH. intros H. apply Hc. now right.
Qed.

Lemma upto_last_skip c a b :
  ~ In c b -> upto_last c (a ++ c :: b) = a ++ [c].
Proof.
  intros Hc. unfold upto_last.
  rewrite rev_app_distr. simpl. rewrite <- app_assoc. simpl.
  rewrite from_first_skip by (now rewrite <- in_rev).
  simpl. now rewrite rev_involutive.
Qed.

Lemma isolate_object_span a mid b :
  ~ In c_lbrace a -> ~ In c_rbrace b ->
  isolate_object (a ++ c_lbrace :: mid ++ c_rbrace :: b)
  = Some (c_lbrace :: mid ++ [c_rbrace]).
Proof.
  intros Ha Hb. unfold isolate_object.
  rewrite from_first_skip by exact Ha.
  rewrite upto_last_skip by exact Hb.
  now destruct mid.
Qed.

(** The span that stage 2 takes out of a reply made of prose without an
    opening brace, a brace-delimited text, and prose without a closing
    brace. *)
Lemma isolate_in_prose p1 m p2 :
  ~ In c_lbrace p1 -> ~ In c_rbrace p2 ->
  isolate_object (strip_fences (p1 ++ c_lbrace :: m ++ c_rbrace :: p2))
  = Some (c_lbrace :: delete_fences 0 m ++ [c_rbrace]).
Proof.
  intros H1 H2. unfold strip_fences.
  rewrite delete_fences_split by (cbv; intuition discriminate || lia).
  rewrite delete_fences_split by (cbv; intuition discriminate || lia).
  rewrite trim_around by reflexivity.
  apply isolate_object_span.
  - intros H. apply drop_while_in, delete_fences_in in H. auto.
  - intros H. apply in_rev, drop_while_in in H.
    apply in_rev, delete_fences_in in H. auto.
Qed.

Lemma starts_with_in p c : forall s,
  starts_with p s = true -> In c p -> In c s.
Proof.
  induction p as [|a p IH]; intros [|b s] H Hc; simpl in *;
    try discriminate; try contradiction.
  apply andb_prop in H. destruct H as [Hab H].
  apply N.eqb_eq in Hab. subst b.
  destruct Hc as [->|Hc]; [now left | right; eauto].
Qed.

Lemma fence_match_backtick s : fence_match s <> 0 -> In c_backtick s.
Proof.
  unfold fence_match. intros H.
  destruct (starts_with fence_json_nl s) eqn:E1;
    [apply (starts_with_in _ c_backtick _ E1); now left|].
  destruct (starts_with fence_json s) eqn:E2;
    [apply (starts_with_in _ c_backtick _ E2); now left|].
  destruct (starts_with nl_fence s) eqn:E3;
    [apply (starts_with_in _ c_backtick _ E3); right; now left|].
  destruct (starts_with fence s) eqn:E4;
    [apply (starts_with_in _ c_backtick _ E4); now left|].
  contradiction.
Qed.

(** A text without a backtick has no fence to delete. *)
Lemma delete_fences_plain : forall s,
  ~ In c_backtick s -> delete_fences 0 s = s.
Proof.
  induction s as [|c s IH]; intros H; [reflexivity|].
  cbn [delete_fences].
  destruct (fence_match (c :: s)) eqn:E.
  - rewrite IH; [reflexivity|]. intros K. apply H. now right.
  - exfalso. apply H. apply fence_match_backtick. rewrite E. discriminate.
Qed.

Lemma recover_by_span t u m :
  isolate_object (strip_fences t) = Some m ->
  isolate_object (strip_fences u) = Some m ->
  recover t = recover u.
Proof.
  intros Ht Hu. unfold recover, parse_stage, candidate, isolate.
  now rewrite Ht, Hu.
Qed.

(** C6 (as the code has it). For a text that starts with an opening brace
    and ends with a closing brace, put between prose without an opening
    brace before it and prose without a closing brace after it, stage 2
    takes out the span from the first opening brace to the last closing
    brace of the stripped reply, which is that text with its fences
    deleted (the text itself when it has no backtick), and the pipeline
    returns what it returns for the text alone. *)
Theorem recover_ignores_prose (p1 m p2 : text)
    (Hbefore : ~ In c_lbrace p1) (Hafter : ~ In c_rbrace p2) :
  let j := c_lbrace :: m ++ [c_rbrace] in
  isolate_object (strip_fences (p1 ++ j ++ p2))
  = Some (c_lbrace :: delete_fences 0 m ++ [c_rbrace])
  /\ (~ In c_backtick m ->
      isolate_object (strip_fences (p1 ++ j ++ p2)) = Some j)
  /\ recover (p1 ++ j ++ p2) = recover j.
Proof.
  intros j.
  assert (E : p1 ++ j ++ p2 = p1 ++ c_lbrace :: m ++ c_rbrace :: p2).
  { unfold j. simpl. now rewrite <- app_assoc. }
  assert (S1 : isolate_object (strip_fences (p1 ++ j ++ p2))
               = Some (c_lbrace :: delete_fences 0 m ++ [c_rbrace])).
  { rewrite E. now apply isolate_in_prose. }
  assert (S2 : isolate_object (strip_fences j)
               = Some (c_lbrace :: delete_fences 0 m ++ [c_rbrace])).
  { apply (@isolate_in_prose [] m []); simpl; tauto. }
  split; [exact S1|]. split.
  - intros Hm. rewrite S1. unfold j. now rewrite delete_fences_plain.
  - exact (recover_by_span _ _ S1 S2).
Qed.

Lemma recover_ignores_prose_witness :
  recover (js "Sure, here you go: " ++ reply_good ++ js " Hope this helps.")
  = recover reply_good.
Proof.
  apply (@recover_ignores_prose
           (js "Sure, here you go: ")
           (js "'credibility_score': 82, 'reasoning_summary': 'ok'")
           (js " Hope this helps."));
    vm_compute; intuition discriminate.
Defined.

(** C6 as stated fails: with a brace in the prose before a valid object,
    the span starts at that brace and does not parse. *)
Lemma prose_with_brace_counterexample :
  let p1 := js "Here is {the} answer: " in
  JSON_parse reply_good <> None
  /\ recover reply_good = Ok (JObject (apply_defaults parsed_good))
  /\ recover (p1 ++ reply_good ++ []) = Err MalformedJson
  /\ recover (p1 ++ reply_good ++ []) <> recover reply_good.
Proof.
  repeat split; try (vm_compute; reflexivity); vm_compute; discriminate.
Qed.

End FenceFacts.

(** ** A reply inside a markdown fence *)

Module WrapFacts.
Import Samples FenceFacts.

Ltac split_eqb :=
  repeat match goal with
  | |- context [N.eqb ?c ?k] =>
      destruct (N.eqb_spec c k); subst; cbn [andb];
      try discriminate; try congruence
  end.

Ltac by_first_eight t :=
  destruct t as [|? [|? [|? [|? [|? [|? [|? [|? ?]]]]]]]];
  cbn [app starts_with andb] in *; split_eqb; auto.

(** The closing fence after a text changes what matches at the head of the
    text in one case only: the text is the opening marker itself, whose
    optional line feed then is the one of the closing fence. *)
Lemma fence_match_suffix (t : text) :
  t <> [] ->
  fence_match (t ++ nl_fence) = fence_match t \/ t = fence_json.
Proof.
  intros Ht.
  unfold fence_match, fence_json_nl, fence_json, nl_fence, fence.
  by_first_eight t.
Qed.

Lemma delete_fences_suffix : forall t k,
  k <= List.length t ->
  delete_fences k (t ++ nl_fence) = delete_fences k t.
Proof.
  induction t as [|c t IH]; intros k Hk.
  - assert (k = 0) by (simpl in Hk; lia). subst k. reflexivity.
  - destruct k as [|k]; cbn [app delete_fences].
    + change (c :: t ++ nl_fence) with ((c :: t) ++ nl_fence).
      destruct (fence_match_suffix (t := c :: t)) as [E|E];
        [discriminate| |].
      * rewrite E. pose proof (fence_match_le (c :: t)) as Hle.
        destruct (fence_match (c :: t)) as [|n].
        -- now rewrite IH by lia.
        -- apply IH. simpl in Hle. lia.
      * injection E as -> ->. reflexivity.
    + apply IH. simpl in Hk. lia.
Qed.

Lemma fence_match_bare (t : text) :
  starts_with fence t = true -> starts_with fence_json t = false ->
  fence_match t = 3.
Proof.
  unfold fence_match, fence_json_nl, fence_json, nl_fence, fence.
  intros H1 H2. by_first_eight t; try discriminate.
Qed.

Lemma fence_match_after_nl (t : text) :
  fence_match (c_nl :: t) = if starts_with fence t then 4 else 0.
Proof.
  unfold fence_match, fence_json_nl, fence_json, nl_fence, fence, c_nl.
  by_first_eight t.
Qed.

Lemma strip_fences_json_fence (t : text) :
  strip_fences (fence_json_nl ++ t ++ nl_fence) = strip_fences t.
Proof.
  unfold strip_fences. f_equal.
  change (delete_fences 0 (fence_json_nl ++ t ++ nl_fence))
    with (delete_fences 0 (t ++ nl_fence)).
  apply delete_fences_suffix. lia.
Qed.

Lemma strip_fences_bare_fence (t : text) :
  starts_with fence_json t = false ->
  strip_fences (fence ++ c_nl :: t ++ nl_fence) = strip_fences t.
Proof.
  intros Hj. unfold strip_fences.
  change (delete_fences 0 (fence ++ c_nl :: t ++ nl_fence))
    with (delete_fences 0 ((c_nl :: t) ++ nl_fence)).
  rewrite delete_fences_suffix by lia.
  cbn [delete_fences]. rewrite fence_match_after_nl.
  destruct (starts_with fence t) eqn:Hf.
  - f_equal. destruct t as [|c t]; [discriminate|].
    cbn [delete_fences]. now rewrite (fence_match_bare _ Hf Hj).
  - reflexivity.
Qed.

Lemma recover_by_strip t u :
  strip_fences t = strip_fences u -> recover t = recover u.
Proof.
  intros H. unfold recover, parse_stage, candidate. now rewrite H.
Qed.

(** C7 (as the code has it). A reply wrapped as the marker with the json
    tag, a line feed, the reply, a line feed and the closing marker is
    recovered to the same result, record or error, as the reply alone. So
    is a reply wrapped in bare markers, provided the reply does not itself
    begin with the json-tagged marker. *)
Theorem fenced_reply_recovers_alike (t : text) :
  recover (fence_json_nl ++ t ++ nl_fence) = recover t
  /\ (starts_with fence_json t = false ->
      recover (fence ++ c_nl :: t ++ nl_fence) = recover t).
Proof.
  split.
  - apply recover_by_strip, strip_fences_json_fence.
  - intros H. now apply recover_by_strip, strip_fences_bare_fence.
Qed.

Lemma fenced_reply_recovers_alike_witness :
  recover (fence ++ c_nl :: reply_good ++ nl_fence) = recover reply_good.
Proof.
  apply (fenced_reply_recovers_alike reply_good). reflexivity.
Defined.

(** C7 as stated fails: this reply opens a json-tagged fence and stops
    inside the object. Alone it is repaired and accepted; inside bare
    markers the tag survives the stripping, no brace-to-brace span exists
    to drop it, and the parse fails. *)
Lemma bare_fence_counterexample :
  recover reply_fenced_open = Ok (JObject (apply_defaults parsed_good))
  /\ recover (fence ++ c_nl :: reply_fenced_open ++ nl_fence)
     = Err MalformedJson
  /\ recover (fence ++ c_nl :: reply_fenced_open ++ nl_fence)
     <> recover reply_fenced_open.
Proof.
  repeat split; try (vm_compute; reflexivity).
  vm_compute. discriminate.
Qed.

End WrapFacts.

(* ================================================================== *)
(** * Further properties of the code *)
(* ================================================================== *)

(** ** What the recovery pipeline returns and how it fails *)

Module RecordFacts.
Import JsonFacts RecoveryFacts Requester Samples MoreSamples.

Lemma or_default_is_truthy v d :
  truthy (Some d) = true -> truthy (Some (or_default v d)) = true.
Proof.
  intros Hd. unfold or_default. destruct v as [x|]; [|exact Hd].
  destruct (truthy (Some x)) eqn:E; [exact E | exact Hd].
Qed.

Lemma defaults_are_truthy ms :
  truthy (obj_get k_confidence (apply_defaults ms)) = true
  /\ truthy (obj_get k_political_leaning (apply_defaults ms)) = true
  /\ truthy (obj_get k_corroboration_analysis (apply_defaults ms)) = true.
Proof.
  rewrite confidence_after_defaults, political_leaning_after_defaults,
    corroboration_after_defaults.
  repeat split; apply or_default_is_truthy; reflexivity.
Qed.

Lemma validate_ok v r :
  validate v = Ok r ->
  exists ms,
    v = JObject ms /\ r = JObject (apply_defaults ms)
    /\ truthy (obj_get k_credibility_score ms) = true
    /\ truthy (obj_get k_reasoning_summary ms) = true.
Proof.
  destruct v as [| b | n | s | l | ms]; simpl; try discriminate.
  destruct (truthy (obj_get k_credibility_score ms)) eqn:E1;
    destruct (truthy (obj_get k_reasoning_summary ms)) eqn:E2;
    simpl; try discriminate.
  intros H. injection H as <-. exists ms. auto.
Qed.

Lemma recovered_complete t r :
  recover t = Ok r ->
  exists ms,
    r = JObject ms
    /\ truthy (obj_get k_credibility_score ms) = true
    /\ truthy (obj_get k_reasoning_summary ms) = true
    /\ truthy (obj_get k_confidence ms) = true
    /\ truthy (obj_get k_political_leaning ms) = true
    /\ truthy (obj_get k_corroboration_analysis ms) = true.
Proof.
  intros Hok.
  unfold recover in Hok. destruct (parse_stage t) as [v|e]; [|discriminate].
  apply validate_ok in Hok. destruct Hok as (ms & _ & -> & H1 & H2).
  exists (apply_defaults ms).
  rewrite !get_after_defaults by reflexivity.
  destruct (defaults_are_truthy ms) as (H3 & H4 & H5).
  repeat split; assumption.
Qed.

(** Whatever the reply, a record that the pipeline returns is an object
    in which all five fields the popup reads hold a truthy value. *)
Theorem recovered_record_is_complete (t : text) (r : json)
    (Hok : recover t = Ok r) :
  exists ms,
    r = JObject ms
    /\ truthy (obj_get k_credibility_score ms) = true
    /\ truthy (obj_get k_reasoning_summary ms) = true
    /\ truthy (obj_get k_confidence ms) = true
    /\ truthy (obj_get k_political_leaning ms) = true
    /\ truthy (obj_get k_corroboration_analysis ms) = true.
Proof. exact (recovered_complete t Hok). Qed.

Lemma recovered_record_is_complete_witness :
  exists ms,
    recover reply_good = Ok (JObject ms)
    /\ truthy (obj_get k_confidence ms) = true.
Proof.
  destruct (@recovered_record_is_complete reply_good
              (JObject (apply_defaults parsed_good)))
    as (ms & E & _ & _ & H & _); [vm_compute; reflexivity|].
  exists ms. rewrite <- E. split; [vm_compute; reflexivity | exact H].
Defined.



Lemma obj_set_same k v : forall ms,
  obj_get k ms = Some v -> obj_set k v ms = ms.
Proof.
  induction ms as [|[k' v'] ms IH]; simpl; [discriminate|].
  destruct (text_eqb k k').
  - intros H. now injection H as ->.
  - intros H. now rewrite IH.
Qed.

Lemma or_default_keep x d :
  truthy (Some x) = true -> or_default (Some x) d = x.
Proof. intros H. unfold or_default. now rewrite H. Qed.

Lemma obj_set_default_stable k d ms :
  truthy (obj_get k ms) = true ->
  obj_set k (or_default (obj_get k ms) d) ms = ms.
Proof.
  intros H. destruct (obj_get k ms) as [x|] eqn:E; [|discriminate].
  rewrite (@or_default_keep x d H). now apply obj_set_same.
Qed.

Lemma apply_defaults_stable ms :
  apply_defaults (apply_defaults ms) = apply_defaults ms.
Proof.
  destruct (defaults_are_truthy ms) as (H1 & H2 & H3).
  remember (apply_defaults ms) as ms' eqn:E.
  unfold apply_defaults at 1.
  rewrite (@obj_set_default_stable k_confidence _ ms' H1).
  rewrite (@obj_set_default_stable k_political_leaning _ ms' H2).
  now rewrite (@obj_set_default_stable k_corroboration_analysis _ ms' H3).
Qed.

(** Validation and defaulting change nothing in a record they returned:
    a returned record passes the same stage again and comes out equal. *)
Theorem validate_is_idempotent (v r : json) (Hok : validate v = Ok r) :
  validate r = Ok r.
Proof.
  apply validate_ok in Hok. destruct Hok as (ms & -> & -> & H1 & H2).
  simpl. rewrite !get_after_defaults by reflexivity.
  rewrite H1, H2. simpl. now rewrite apply_defaults_stable.
Qed.

Lemma validate_is_idempotent_witness :
  validate (JObject (apply_defaults parsed_good))
  = Ok (JObject (apply_defaults parsed_good)).
Proof.
  apply (@validate_is_idempotent (JObject parsed_good)).
  vm_compute. reflexivity.
Defined.

Lemma api_success_inversion (reply : http_reply) (r : json)
    (Hok : callGeminiAPI reply = Ok r) :
  exists data c rest ct p ps t,
    reply = HttpSuccess data
    /\ match promptFeedback data with
       | Some pf => present (blockReason pf)
       | None => false
       end = false
    /\ candidates data = Some (c :: rest)
    /\ is_reason r_SAFETY (finishReason c) = false
    /\ is_reason r_MAX_TOKENS (finishReason c) = false
    /\ cand_content c = Some ct
    /\ parts ct = Some (p :: ps)
    /\ part_text p = Some t
    /\ recover t = Ok r.
Proof.
  destruct reply as [|data]; simpl in Hok; [discriminate|].
  destruct (match promptFeedback data with
            | Some pf => present (blockReason pf) | None => false end)
    eqn:Hblock; [discriminate|].
  destruct (candidates data) as [[|c rest]|] eqn:Hc; try discriminate.
  destruct (check_finish c) eqn:Hf; [discriminate|].
  unfold response_text in Hok.
  destruct (cand_content c) as [ct|] eqn:Hct; [|discriminate].
  destruct (parts ct) as [[|p ps]|] eqn:Hp; try discriminate.
  destruct (part_text p) as [t|] eqn:Ht; [|discriminate].
  exists data, c, rest, ct, p, ps, t.
  unfold check_finish in Hf.
  assert (Hs : is_reason r_SAFETY (finishReason c) = false
               /\ is_reason r_MAX_TOKENS (finishReason c) = false).
  { unfold is_reason in *.
    destruct (finishReason c) as [rs|] eqn:Hfr; [|split; reflexivity].
    destruct (text_eqb_spec rs r_STOP) as [->|Hne]; [split; reflexivity|].
    destruct rs as [|x y]; [split; reflexivity|].
    cbn [present andb negb] in Hf.
    destruct (text_eqb (x :: y) r_SAFETY); [discriminate|].
    destruct (text_eqb (x :: y) r_MAX_TOKENS); [discriminate|].
    split; reflexivity. }
  destruct Hs as [Hs1 Hs2].
  repeat split; auto.
Qed.

(** A record comes out of [callGeminiAPI] only when the transport
    succeeded, the prompt feedback names no block reason, the first
    candidate did not finish for SAFETY or MAX_TOKENS, and the text of its
    first part goes through the recovery pipeline to that record; later
    candidates and later parts are never looked at. *)
Theorem api_success_text (reply : http_reply) (r : json)
    (Hok : callGeminiAPI reply = Ok r) :
  exists data c rest ct p ps t,
    reply = HttpSuccess data
    /\ match promptFeedback data with
       | Some pf => present (blockReason pf)
       | None => false
       end = false
    /\ candidates data = Some (c :: rest)
    /\ is_reason r_SAFETY (finishReason c) = false
    /\ is_reason r_MAX_TOKENS (finishReason c) = false
    /\ cand_content c = Some ct
    /\ parts ct = Some (p :: ps)
    /\ part_text p = Some t
    /\ recover t = Ok r.
Proof. exact (api_success_inversion reply Hok). Qed.

Lemma api_success_text_witness :
  exists t,
    recover t = Ok (JObject (apply_defaults parsed_good)).
Proof.
  destruct (@api_success_text
              (HttpSuccess (envelope_with "STOP" reply_good))
              (JObject (apply_defaults parsed_good)))
    as (data & c & rest & ct & p & ps & t & _ & _ & _ & _ & _ & _ & _ & _ & H);
    [vm_compute; reflexivity|].
  exists t. exact H.
Defined.

End RecordFacts.

(** ** More on the stages of the pipeline *)

Module MoreStageFacts.
Import Reference Notions StageFacts FenceFacts Samples MoreSamples.

(** After stage 4 no kind of bracket has more openers than closers, and
    running the stage again appends nothing more. *)
Theorem balance_repair_settles (s : text) :
  count c_lbracket (balance_repair s) <= count c_rbracket (balance_repair s)
  /\ count c_lbrace (balance_repair s) <= count c_rbrace (balance_repair s)
  /\ balance_repair (balance_repair s) = balance_repair s.
Proof.
  assert (H : count c_lbracket (balance_repair s)
              <= count c_rbracket (balance_repair s)
              /\ count c_lbrace (balance_repair s)
                 <= count c_rbrace (balance_repair s)).
  { rewrite balance_repair_appends, !count_app.
    rewrite !count_repeat_same.
    rewrite !count_repeat_other by discriminate. lia. }
  destruct H as [H1 H2]. repeat split; try assumption.
  rewrite (balance_repair_appends (balance_repair s)).
  replace (count c_lbracket (balance_repair s)
           - count c_rbracket (balance_repair s)) with 0 by lia.
  replace (count c_lbrace (balance_repair s)
           - count c_rbrace (balance_repair s)) with 0 by lia.
  simpl. now rewrite app_nil_r.
Qed.

Lemma from_first_found c : forall s d r,
  from_first c s = d :: r ->
  d = c /\ exists a, s = a ++ c :: r /\ ~ In c a.
Proof.
  induction s as [|x s IH]; intros d r H; simpl in H; [discriminate|].
  destruct (N.eqb_spec x c) as [->|Hne].
  - injection H as <- <-. split; [reflexivity|].
    exists []. split; [reflexivity | intros []].
  - destruct (IH _ _ H) as (-> & a & -> & Ha). split; [reflexivity|].
    exists (x :: a). split; [reflexivity|].
    intros [E|E]; [congruence | auto].
Qed.

Lemma from_first_none c : forall s, from_first c s = [] -> ~ In c s.
Proof.
  induction s as [|x s IH]; intros H; [intros []|].
  simpl in H. destruct (N.eqb_spec x c) as [->|Hne]; [discriminate|].
  intros [E|E]; [congruence | now apply IH].
Qed.

Lemma upto_last_found c t u :
  upto_last c t = u -> u <> [] ->
  exists mid b, t = mid ++ c :: b /\ ~ In c b /\ u = mid ++ [c].
Proof.
  unfold upto_last. intros H Hu.
  destruct (from_first c (rev t)) as [|d r] eqn:E.
  - simpl in H. congruence.
  - destruct (from_first_found _ _ E) as (-> & a & Ha & Hna).
    exists (rev r), (rev a). repeat split.
    + rewrite <- (rev_involutive t), Ha, rev_app_distr. simpl.
      now rewrite <- app_assoc.
    + now rewrite <- in_rev.
    + now rewrite <- H.
Qed.

Lemma upto_last_none c t : upto_last c t = [] -> ~ In c t.
Proof.
  unfold upto_last. intros H.
  assert (E : from_first c (rev t) = []).
  { destruct (from_first c (rev t)) as [|d r]; [reflexivity|].
    simpl in H. destruct (rev r); discriminate. }
  intros K. apply (from_first_none _ _ E). now rewrite <- in_rev.
Qed.

Lemma from_first_reaches c : forall a rest,
  exists z, from_first c (a ++ c :: rest) = c :: z ++ rest.
Proof.
  induction a as [|x a IH]; intros rest; simpl.
  - rewrite N.eqb_refl. now exists [].
  - destruct (N.eqb_spec x c) as [->|Hne].
    + exists (a ++ [c]). now rewrite <- app_assoc.
    + apply IH.
Qed.

(** Stage 2 finds a span exactly when the text can be cut into a part
    without an opening brace, an opening brace, a middle, a closing brace
    and a part without a closing brace; the span is then the braces with
    the middle. Without a span, no opening brace of the text has a closing
    brace anywhere after it. *)
Theorem isolate_object_spec (s : text) :
  (forall m,
     isolate_object s = Some m <->
     exists a mid b,
       s = a ++ c_lbrace :: mid ++ c_rbrace :: b
       /\ ~ In c_lbrace a /\ ~ In c_rbrace b
       /\ m = c_lbrace :: mid ++ [c_rbrace])
  /\ (isolate_object s = None ->
      forall a rest, s = a ++ c_lbrace :: rest -> ~ In c_rbrace rest).
Proof.
  split.
  - intros m. split.
    + unfold isolate_object.
      destruct (from_first c_lbrace s) as [|d r] eqn:E; [discriminate|].
      destruct (from_first_found _ _ E) as (-> & a & -> & Ha).
      destruct (upto_last c_rbrace r) as [|x u] eqn:U; [discriminate|].
      intros H. injection H as <-.
      destruct (@upto_last_found c_rbrace r (x :: u) U)
        as (mid & b & -> & Hb & ->); [discriminate|].
      exists a, mid, b. auto.
    + intros (a & mid & b & -> & Ha & Hb & ->).
      now apply isolate_object_span.
  - unfold isolate_object. intros H a rest -> Hin.
    destruct (from_first_reaches c_lbrace a rest) as (z & E).
    rewrite E in H.
    destruct (upto_last c_rbrace (z ++ rest)) eqn:U; [|discriminate].
    apply (upto_last_none _ _ U). apply in_or_app. now right.
Qed.

Lemma isolate_object_spec_witness :
  isolate_object (js "so {'a': {}} it is") = Some (js "{'a': {}}")
  /\ ~ In c_rbrace (js "'a': 1").
Proof.
  destruct (isolate_object_spec (js "so {'a': {}} it is")) as [H _].
  destruct (isolate_object_spec (js "{'a': 1")) as [_ K].
  split.
  - apply H. exists (js "so "), (js "'a': {}"), (js " it is").
    repeat split; vm_compute; intuition discriminate.
  - apply (K eq_refl []). reflexivity.
Defined.

Lemma collapse_newlines r : forall s,
  collapse_from r (newlines_to_spaces s) = collapse_from r s.
Proof.
  intros s. revert r. induction s as [|c s IH]; intros r; [reflexivity|].
  simpl. destruct (N.eqb_spec c c_nl) as [->|Hne].
  - change (is_space c_space) with true. change (is_space c_nl) with true.
    destruct r; now rewrite IH.
  - destruct (is_space c); [destruct r|]; now rewrite IH.
Qed.

Lemma in_run_after_snoc r x c : in_run_after r (x ++ [c]) = is_space c.
Proof. unfold in_run_after. now rewrite rev_app_distr. Qed.

Lemma collapse_from_app r : forall x y,
  collapse_from r (x ++ y)
  = collapse_from r x ++ collapse_from (in_run_after r x) y.
Proof.
  intros x. revert r. induction x as [|c x IH]; intros r y; [reflexivity|].
  assert (E : in_run_after r (c :: x) = in_run_after (is_space c) x).
  { unfold in_run_after. simpl. now destruct (rev x). }
  simpl. rewrite E.
  destruct (is_space c) eqn:Hc.
  - destruct r; rewrite IH; reflexivity.
  - rewrite IH. reflexivity.
Qed.

Lemma in_run_after_rev acc : in_run_after false (rev acc) = ends_in_space acc.
Proof. unfold in_run_after. rewrite rev_involutive. now destruct acc. Qed.

Lemma fix_string_literal body :
  fix_string (c_quote :: body ++ [c_quote])
  = c_quote :: collapse_from false body ++ [c_quote].
Proof.
  unfold fix_string, collapse_ws. rewrite collapse_newlines.
  change (c_quote :: body ++ [c_quote]) with ([c_quote] ++ body ++ [c_quote]).
  rewrite !collapse_from_app. simpl.
  change (is_space c_quote) with false. simpl.
  change (in_run_after false [c_quote]) with false. reflexivity.
Qed.

(** One more code unit of a literal, on both sides. *)
Lemma literal_step acc c s' :
  (c =? c_quote)%N = false -> (c =? c_backslash)%N = false ->
  collapse_from false (rev (c :: acc))
    ++ literal_normalize (InLiteral (is_space c)) s'
  = collapse_from false (rev acc)
    ++ literal_normalize (InLiteral (ends_in_space acc)) (c :: s').
Proof.
  intros Hq Hb. simpl rev. rewrite collapse_from_app, in_run_after_rev.
  rewrite <- app_assoc. f_equal.
  cbn [literal_normalize collapse_from]. rewrite Hq, Hb.
  destruct (is_space c); [destruct (ends_in_space acc)|]; reflexivity.
Qed.

Lemma normalize_matches_reference : forall s,
  ~ In c_backslash s ->
  (Nat.even (count c_quote s) = true ->
   normalize_from None s = literal_normalize Outside s)
  /\ (Nat.even (count c_quote s) = false ->
      forall acc,
        normalize_from (Some acc) s
        = c_quote :: collapse_from false (rev acc)
            ++ literal_normalize (InLiteral (ends_in_space acc)) s).
Proof.
  induction s as [|c s IH]; intros Hb.
  - split; [reflexivity | discriminate].
  - assert (Hb' : ~ In c_backslash s) by (intros K; apply Hb; now right).
    assert (Hcb : (c =? c_backslash)%N = false).
    { apply N.eqb_neq. intros ->. apply Hb. now left. }
    destruct (IH Hb') as [IHe IHo]. clear IH.
    unfold count in *. simpl count_occ.
    destruct (N.eq_dec c c_quote) as [->|Hne].
    + rewrite Nat.even_succ, <- Nat.negb_even.
      split; intros Hpar.
      * apply negb_true_iff in Hpar. cbn [normalize_from literal_normalize].
        rewrite N.eqb_refl. exact (IHo Hpar []).
      * apply negb_false_iff in Hpar. intros acc.
        cbn [normalize_from literal_normalize]. rewrite N.eqb_refl.
        rewrite fix_string_literal. simpl. rewrite <- app_assoc. simpl.
        repeat f_equal. exact (IHe Hpar).
    + assert (Hcq : (c =? c_quote)%N = false) by now apply N.eqb_neq.
      split; intros Hpar.
      * cbn [normalize_from literal_normalize]. rewrite Hcq.
        f_equal. exact (IHe Hpar).
      * intros acc. cbn [normalize_from]. rewrite Hcq.
        etransitivity; [exact (IHo Hpar (c :: acc))|].
        f_equal. now apply literal_step.
Qed.

(** In a text with no backslash and an even number of double quotes the
    pairs of quotes that stage 3 takes are the string literals: the stage
    turns each run of whitespace inside a literal into one space and
    changes nothing outside the literals. *)
Theorem normalize_strings_on_plain_literals (s : text)
    (Hplain : ~ In c_backslash s)
    (Hclosed : Nat.even (count c_quote s) = true) :
  normalize_strings s = literal_normalize Outside s.
Proof.
  unfold normalize_strings.
  now apply (proj1 (normalize_matches_reference s Hplain)).
Qed.

Lemma normalize_strings_on_plain_literals_witness :
  normalize_strings (js "{ 'a' :  'x~ ~y',~ 'b': 1 }")
  = js "{ 'a' :  'x y',~ 'b': 1 }".
Proof.
  rewrite normalize_strings_on_plain_literals.
  - vm_compute. reflexivity.
  - vm_compute. intuition discriminate.
  - vm_compute. reflexivity.
Defined.

End MoreStageFacts.

(** ** The analysis handler and the history it feeds *)

Module OrchestrationFacts.
Import History Requester Extractor Orchestration Popup.
Import HistoryFacts ExtractorFacts RecordFacts Samples MoreSamples.

Lemma split_acc_plain sep : forall a cur,
  ~ In sep a -> split_acc sep cur a = [rev cur ++ a].
Proof.
  induction a as [|x a IH]; intros cur Ha; simpl.
  - now rewrite app_nil_r.
  - destruct (N.eqb_spec x sep) as [->|Hne].
    + exfalso. apply Ha. now left.
    + rewrite IH by (intros K; apply Ha; now right).
      simpl. now rewrite <- app_assoc.
Qed.

Lemma split_acc_sep sep r : forall a cur,
  ~ In sep a ->
  split_acc sep cur (a ++ sep :: r) = (rev cur ++ a) :: split_acc sep [] r.
Proof.
  induction a as [|x a IH]; intros cur Ha; simpl.
  - now rewrite N.eqb_refl, app_nil_r.
  - destruct (N.eqb_spec x sep) as [->|Hne].
    + exfalso. apply Ha. now left.
    + rewrite IH by (intros K; apply Ha; now right).
      simpl. now rewrite <- app_assoc.
Qed.

Lemma split_acc_length sep : forall s cur,
  List.length (split_acc sep cur s) = S (count sep s).
Proof.
  induction s as [|x s IH]; intros cur; [reflexivity|].
  unfold count in *. simpl.
  destruct (N.eqb_spec x sep) as [->|Hne].
  - destruct (N.eq_dec sep sep); [|congruence]. simpl. now rewrite IH.
  - destruct (N.eq_dec x sep); [congruence|]. apply IH.
Qed.

Lemma url_pieces scheme host path :
  ~ In c_slash scheme -> ~ In c_slash host ->
  nth_error
    (split c_slash (scheme ++ [c_slash; c_slash] ++ host ++ c_slash :: path))
    2 = Some host
  /\ nth_error (split c_slash (scheme ++ [c_slash; c_slash] ++ host)) 2
     = Some host.
Proof.
  intros Hs Hh. unfold split. cbn [app]. split.
  - rewrite (@split_acc_sep c_slash _ scheme []) by exact Hs.
    change (split_acc c_slash [] (c_slash :: host ++ c_slash :: path))
      with ([] :: split_acc c_slash [] (host ++ c_slash :: path)).
    rewrite (@split_acc_sep c_slash _ host []) by exact Hh.
    reflexivity.
  - rewrite (@split_acc_sep c_slash _ scheme []) by exact Hs.
    change (split_acc c_slash [] (c_slash :: host))
      with ([] :: split_acc c_slash [] host).
    rewrite (@split_acc_plain c_slash host []) by exact Hh.
    reflexivity.
Qed.

Lemma no_third_piece u :
  nth_error (split c_slash u) 2 = None <-> count c_slash u < 2.
Proof.
  unfold split. rewrite nth_error_None, split_acc_length. lia.
Qed.

(** The title stored with an entry is the host of the address: the piece
    between the double slash after the scheme and the next slash (or the
    end). An address with fewer than two slashes gets no title. *)
Theorem entry_title_is_host (now : Z) (d : json) :
  (forall scheme host path,
     ~ In c_slash scheme -> ~ In c_slash host ->
     title (make_entry now
              (scheme ++ [c_slash; c_slash] ++ host ++ c_slash :: path) d)
     = Some host
     /\ title (make_entry now (scheme ++ [c_slash; c_slash] ++ host) d)
        = Some host)
  /\ (forall u, title (make_entry now u d) = None <-> count c_slash u < 2).
Proof.
  split.
  - intros scheme host path Hs Hh. exact (@url_pieces scheme host path Hs Hh).
  - intros u. exact (no_third_piece u).
Qed.

Lemma entry_title_is_host_witness :
  title (make_entry 0
           (str "https:" ++ [c_slash; c_slash] ++ str "example.org"
              ++ c_slash :: str "news/1") JNull)
  = Some (str "example.org")
  /\ count c_slash (str "about:blank") < 2.
Proof.
  destruct (entry_title_is_host 0 JNull) as [H K].
  split.
  - refine (proj1 (H (str "https:") (str "example.org") (str "news/1") _ _));
      vm_compute; intuition discriminate.
  - apply K. reflexivity.
Defined.

Lemma slice_last_snoc (A : Type) (n : nat) (h : list A) (e : A) :
  slice_last (S n) (h ++ [e]) = slice_last n h ++ [e].
Proof.
  unfold slice_last. rewrite length_app, skipn_app. simpl List.length.
  replace (List.length h + 1 - S n) with (List.length h - n) by lia.
  replace (List.length h - n - List.length h) with 0 by lia.
  reflexivity.
Qed.

(** After a save the history list is never the empty notice: it shows the
    entry just saved first, then the 19 latest of the older entries, the
    newer above the older. *)
Theorem history_shows_latest_first (row : Type)
    (render : HistoryEntry -> row) (now : Z) (u : text) (d : json)
    (st : storage) :
  loadHistory render (saveToHistory now u d st)
  = Rows (render (make_entry now u d)
            :: List.map render (rev (slice_last 19 (log st)))).
Proof.
  unfold loadHistory. rewrite log_saveToHistory, slice_last_snoc.
  destruct (slice_last 19 (log st) ++ [make_entry now u d]) eqn:E.
  - destruct (slice_last 19 (log st)); discriminate.
  - rewrite <- E, rev_app_distr. reflexivity.
Qed.

(** Clearing empties the list for good: what is saved afterwards is all
    the history holds, its last 20 entries at most; a declined
    confirmation changes nothing. *)
Theorem cleared_history_starts_over (st : storage) (calls : list save_call) :
  log (clearHistory true st) = []
  /\ log (save_all calls (clearHistory true st))
     = slice_last 20 (List.map entry_of calls)
  /\ clearHistory false st = st.
Proof.
  repeat split.
  rewrite log_save_all by (simpl; lia). reflexivity.
Qed.

(** A failed analysis writes nothing to the history. *)
Theorem failed_analysis_keeps_history (w : world) (u : text) (f : failure)
    (st' : storage) (Hfail : handleAnalysis w u = (Failed f, st')) :
  st' = local w.
Proof.
  unfold handleAnalysis in Hfail.
  destruct (page w) as [doc|]; [|congruence].
  destruct (insubstantial 100 (extractArticleContent doc)); [congruence|].
  destruct (geminiApiKey (sync w)) as [[|c k]|]; try congruence.
  destruct (callGeminiAPI _); congruence.
Qed.

Lemma failed_analysis_keeps_history_witness :
  snd (handleAnalysis (world_ready HttpFailure) url_example)
  = local (world_ready HttpFailure).
Proof.
  apply (@failed_analysis_keeps_history (world_ready HttpFailure) url_example
           (ApiCallFailed RequestFailed)).
  vm_compute. reflexivity.
Defined.

(** Without a page, with an extracted text of fewer than 100 trimmed code
    units, or without a stored key, the outcome does not depend on what
    the service would answer: the handler fails before any request. *)
Theorem analysis_gates_come_first (w1 w2 : world) (u : text)
    (Hpage : page w1 = page w2) (Hsync : sync w1 = sync w2)
    (Hlocal : local w1 = local w2)
    (Hgate : page w1 = None
             \/ (exists doc, page w1 = Some doc
                   /\ trimmed_length (extractArticleContent doc) < 100)
             \/ present (geminiApiKey (sync w1)) = false) :
  handleAnalysis w1 u = handleAnalysis w2 u
  /\ exists f, handleAnalysis w1 u = (Failed f, local w1)
               /\ forall e, f <> ApiCallFailed e.
Proof.
  unfold handleAnalysis. rewrite <- Hpage, <- Hsync, <- Hlocal.
  destruct (page w1) as [doc|].
  - destruct (insubstantial 100 (extractArticleContent doc)) eqn:Hins.
    + split; [reflexivity|]. eexists; split; [reflexivity | discriminate].
    + destruct Hgate as [H|[(doc' & H & Hshort)|H]].
      * discriminate.
      * injection H as <-.
        rewrite (insubstantial_short _ Hshort) in Hins. discriminate.
      * destruct (geminiApiKey (sync w1)) as [[|c k]|]; try discriminate;
          (split; [reflexivity|]);
          eexists; (split; [reflexivity | discriminate]).
  - split; [reflexivity|]. eexists; split; [reflexivity | discriminate].
Qed.

Lemma analysis_gates_come_first_witness :
  let w1 := {| page := None; sync := {| geminiApiKey := None |};
               local := {| analysisHistory := None |};
               network := fun _ _ _ => HttpFailure; clock := 0 |} in
  let w2 := {| page := None; sync := {| geminiApiKey := None |};
               local := {| analysisHistory := None |};
               network :=
                 fun _ _ _ => HttpSuccess (envelope_with "STOP" reply_good);
               clock := 0 |} in
  handleAnalysis w1 url_example = handleAnalysis w2 url_example.
Proof.
  intros w1 w2.
  apply (@analysis_gates_come_first w1 w2 url_example
           eq_refl eq_refl eq_refl).
  left. reflexivity.
Defined.

(** A successful analysis had a page whose extracted text has at least 100
    trimmed code units and a stored key that is not empty. It answers with
    the record that [callGeminiAPI] returned, in which the five fields are
    truthy, and appends one entry for it: the history afterwards is the
    last 20 of the old history followed by that entry, which holds the
    address, the score of the record and the clock reading. *)
Theorem successful_analysis (w : world) (u : text) (data : json)
    (st' : storage) (Hok : handleAnalysis w u = (Succeeded data, st')) :
  exists doc key ms,
    page w = Some doc
    /\ 100 <= trimmed_length (extractArticleContent doc)
    /\ geminiApiKey (sync w) = Some key /\ key <> []
    /\ callGeminiAPI (network w (extractArticleContent doc) u key) = Ok data
    /\ data = JObject ms
    /\ truthy (obj_get k_credibility_score ms) = true
    /\ truthy (obj_get k_reasoning_summary ms) = true
    /\ truthy (obj_get k_confidence ms) = true
    /\ truthy (obj_get k_political_leaning ms) = true
    /\ truthy (obj_get k_corroboration_analysis ms) = true
    /\ log st'
       = slice_last 19 (log (local w))
           ++ [ {| url := u;
                   title := nth_error (split c_slash u) 2;
                   score := obj_get k_credibility_score ms;
                   timestamp := clock w |} ]
    /\ List.length (log st') <= 20.
Proof.
  unfold handleAnalysis in Hok.
  destruct (page w) as [doc|]; [|discriminate].
  destruct (insubstantial 100 (extractArticleContent doc)) eqn:Hins;
    [discriminate|].
  destruct (geminiApiKey (sync w)) as [[|c k]|]; try discriminate.
  destruct (callGeminiAPI _) as [r|e] eqn:Hcall; [|discriminate].
  injection Hok as <- <-.
  destruct (api_success_inversion _ Hcall)
    as (_ & _ & _ & _ & _ & _ & t & _ & _ & _ & _ & _ & _ & _ & _ & Hrec).
  destruct (recovered_complete _ Hrec)
    as (ms & -> & H1 & H2 & H3 & H4 & H5).
  exists doc, (c :: k), ms.
  repeat split; auto; try discriminate.
  - destruct (Nat.le_gt_cases 100 (trimmed_length (extractArticleContent doc)))
      as [H|H]; [exact H|].
    rewrite (insubstantial_short _ H) in Hins. discriminate.
  - rewrite log_saveToHistory. apply slice_last_snoc.
  - rewrite log_saveToHistory. apply slice_last_length.
Qed.

Lemma successful_analysis_witness :
  exists st',
    handleAnalysis
      (world_ready (HttpSuccess (envelope_with "STOP" reply_good)))
      url_example
    = (Succeeded (JObject (apply_defaults parsed_good)), st')
    /\ List.length (log st') <= 20.
Proof.
  eexists. split; [vm_compute; reflexivity|].
  destruct (@successful_analysis
              (world_ready (HttpSuccess (envelope_with "STOP" reply_good)))
              url_example (JObject (apply_defaults parsed_good)) _ eq_refl)
    as (doc & key & ms & H); decompose [and] H; assumption.
Defined.

(** The service is only ever asked about an article text of at most 3000
    code units, at least 100 of them once trimmed, and with a key that is
    not empty: two worlds whose services agree on such requests give the
    same outcome. *)
Theorem analysis_requests_are_bounded (w1 w2 : world) (u : text)
    (Hpage : page w1 = page w2) (Hsync : sync w1 = sync w2)
    (Hlocal : local w1 = local w2) (Hclock : clock w1 = clock w2)
    (Hnet : forall a key,
        List.length a <= 3000 -> 100 <= trimmed_length a -> key <> [] ->
        network w1 a u key = network w2 a u key) :
  handleAnalysis w1 u = handleAnalysis w2 u.
Proof.
  unfold handleAnalysis. rewrite <- Hpage, <- Hsync, <- Hlocal, <- Hclock.
  destruct (page w1) as [doc|]; [|reflexivity].
  destruct (insubstantial 100 (extractArticleContent doc)) eqn:Hins;
    [reflexivity|].
  destruct (geminiApiKey (sync w1)) as [[|c k]|]; try reflexivity.
  rewrite <- Hnet; [reflexivity | | | discriminate].
  - unfold extractArticleContent. apply firstn_le_length.
  - destruct (Nat.le_gt_cases 100 (trimmed_length (extractArticleContent doc)))
      as [H|H]; [exact H|].
    rewrite (insubstantial_short _ H) in Hins. discriminate.
Qed.

Lemma analysis_requests_are_bounded_witness :
  let good := HttpSuccess (envelope_with "STOP" reply_good) in
  let w2 :=
    {| page := Some page_long_article;
       sync := {| geminiApiKey := Some (str "k") |};
       local := {| analysisHistory := None |};
       network := fun a _ _ =>
         if 3000 <? List.length a then HttpFailure else good;
       clock := 1000%Z |} in
  handleAnalysis (world_ready good) url_example
  = handleAnalysis w2 url_example.
Proof.
  intros good w2.
  apply (@analysis_requests_are_bounded (world_ready good) w2 url_example
           eq_refl eq_refl eq_refl eq_refl).
  intros a key Ha _ _. simpl.
  apply Nat.ltb_ge in Ha. now rewrite Ha.
Defined.

(** What a history row shows for a saved entry: the escaped host of the
    address when the address has one, and the escaped address itself when
    it has fewer than two slashes or nothing between the double slash and
    the next slash. *)
Theorem history_title_of_saved_entry (now : Z) (d : json) :
  (forall scheme host path,
     ~ In c_slash scheme -> ~ In c_slash host -> host <> [] ->
     history_title
       (make_entry now
          (scheme ++ [c_slash; c_slash] ++ host ++ c_slash :: path) d)
     = escapeHtml host)
  /\ (forall u, count c_slash u < 2 ->
                history_title (make_entry now u d) = escapeHtml u)
  /\ (forall scheme path,
        ~ In c_slash scheme ->
        history_title
          (make_entry now (scheme ++ [c_slash; c_slash; c_slash] ++ path) d)
        = escapeHtml (scheme ++ [c_slash; c_slash; c_slash] ++ path)).
Proof.
  unfold history_title, make_entry. cbn [title url]. repeat split.
  - intros scheme host path Hs Hh Hne.
    rewrite (proj1 (@url_pieces scheme host path Hs Hh)).
    destruct host; [congruence | reflexivity].
  - intros u Hu. apply no_third_piece in Hu. now rewrite Hu.
  - intros scheme path Hs.
    change (scheme ++ [c_slash; c_slash; c_slash] ++ path)
      with (scheme ++ [c_slash; c_slash] ++ [] ++ c_slash :: path).
    rewrite (proj1 (@url_pieces scheme [] path Hs (fun K => K))).
    reflexivity.
Qed.

Lemma history_title_of_saved_entry_witness :
  history_title (make_entry 0 (str "about:blank") JNull)
  = str "about:blank".
Proof.
  rewrite (proj1 (proj2 (history_title_of_saved_entry 0 JNull))).
  - reflexivity.
  - vm_compute. lia.
Defined.

End OrchestrationFacts.

(** ** The popup and the content script *)

Module PopupFacts.
Import History Extractor Orchestration Popup.
Import FenceFacts Samples MoreSamples.

Lemma drop_while_head f : forall s c r,
  drop_while f s = c :: r -> f c = false.
Proof.
  induction s as [|x s IH]; intros c r H; simpl in H; [discriminate|].
  destruct (f x) eqn:E; [eauto|]. now injection H as <- _.
Qed.

Lemma drop_while_suffix f : forall s,
  exists w, s = w ++ drop_while f s.
Proof.
  induction s as [|x s IH]; [now exists []|].
  simpl. destruct (f x).
  - destruct IH as (w & E). exists (x :: w). simpl. now rewrite <- E.
  - now exists [].
Qed.

(** A trimmed string that is not empty starts and ends with a code unit
    that is no whitespace. *)
Lemma trim_ends x c k :
  trim x = c :: k ->
  is_space c = false /\ is_space (last (c :: k) c) = false.
Proof.
  unfold trim. intros H.
  destruct (drop_while is_space (rev (drop_while is_space x)))
    as [|d z] eqn:Z; [discriminate|].
  pose proof (drop_while_head _ _ Z) as Hd.
  destruct (drop_while_suffix is_space (rev (drop_while is_space x)))
    as (w & E).
  rewrite Z in E. split.
  - apply (f_equal (@rev char)) in E.
    rewrite rev_involutive, rev_app_distr, H in E.
    destruct (drop_while is_space x) as [|y l] eqn:Y; [discriminate|].
    simpl in E. injection E as -> _.
    exact (drop_while_head _ _ Y).
  - rewrite <- H. simpl. now rewrite last_last.
Qed.

(** The save button stores the trimmed content of the key field, which
    then neither starts nor ends with whitespace, and an analysis that
    reads it passes the key check; when the field holds only whitespace
    nothing is stored and an error is shown. *)
Theorem saved_key_is_trimmed (input : text) (s : sync_storage) :
  (trim input = [] -> saveApiKey input s = (s, StatusError m_enter_key))
  /\ (forall c k,
        trim input = c :: k ->
        saveApiKey input s
        = ({| geminiApiKey := Some (c :: k) |}, StatusSuccess m_key_saved)
        /\ is_space c = false
        /\ is_space (last (c :: k) c) = false
        /\ forall w u,
             sync w = fst (saveApiKey input s) ->
             fst (handleAnalysis w u) <> Failed MissingCredential).
Proof.
  split.
  - intros H. unfold saveApiKey. now rewrite H.
  - intros c k H. destruct (trim_ends _ H) as [H1 H2].
    unfold saveApiKey. rewrite H. repeat split; auto.
    intros w u Hw. simpl in Hw. unfold handleAnalysis. rewrite Hw. simpl.
    destruct (page w) as [doc|]; [|discriminate].
    destruct (insubstantial 100 (extractArticleContent doc)); [discriminate|].
    destruct (Requester.callGeminiAPI _); discriminate.
Qed.

Lemma saved_key_is_trimmed_witness :
  saveApiKey (str "  abc ") {| geminiApiKey := None |}
  = ({| geminiApiKey := Some (str "abc") |}, StatusSuccess m_key_saved)
  /\ saveApiKey (str "   ") {| geminiApiKey := Some (str "old") |}
     = ({| geminiApiKey := Some (str "old") |}, StatusError m_enter_key).
Proof.
  split.
  - apply (proj2 (saved_key_is_trimmed (str "  abc ")
                    {| geminiApiKey := None |}) 97%N (str "bc")).
    reflexivity.
  - apply (proj1 (saved_key_is_trimmed (str "   ")
                    {| geminiApiKey := Some (str "old") |})).
    reflexivity.
Defined.

Lemma escape_unit_safe c x :
  In x (escape_unit c) ->
  x <> 60%N /\ x <> 62%N /\ x <> 34%N /\ x <> 39%N.
Proof.
  unfold escape_unit.
  destruct (N.eqb_spec c 38); [cbv; intuition (subst; discriminate)|].
  destruct (N.eqb_spec c 60); [cbv; intuition (subst; discriminate)|].
  destruct (N.eqb_spec c 62); [cbv; intuition (subst; discriminate)|].
  destruct (N.eqb_spec c 34); [cbv; intuition (subst; discriminate)|].
  destruct (N.eqb_spec c 39); [cbv; intuition (subst; discriminate)|].
  intros [<-|[]]. auto.
Qed.

(** The escaped text holds no angle bracket, no double quote and no
    apostrophe, whatever the input; a text without the five special code
    units is returned as it is, and escaping goes piece by piece. *)
Theorem escapeHtml_is_safe (t : text) :
  (forall x, In x (escapeHtml t) ->
             x <> 60%N /\ x <> 62%N /\ x <> 34%N /\ x <> 39%N)
  /\ ((forall x, In x t -> ~ In x [38%N; 60%N; 62%N; 34%N; 39%N]) ->
      escapeHtml t = t)
  /\ (forall u, escapeHtml (t ++ u) = escapeHtml t ++ escapeHtml u).
Proof.
  split; [|split].
  - intros x H. unfold escapeHtml in H. apply in_flat_map in H.
    destruct H as (c & _ & H). exact (escape_unit_safe _ _ H).
  - induction t as [|c t IH]; intros H; [reflexivity|].
    unfold escapeHtml in *. simpl.
    assert (Hc : ~ In c [38%N; 60%N; 62%N; 34%N; 39%N])
      by (apply H; now left).
    unfold escape_unit.
    destruct (N.eqb_spec c 38); [exfalso; apply Hc; simpl; auto|].
    destruct (N.eqb_spec c 60); [exfalso; apply Hc; simpl; auto|].
    destruct (N.eqb_spec c 62); [exfalso; apply Hc; simpl; auto|].
    destruct (N.eqb_spec c 34); [exfalso; apply Hc; simpl; auto|].
    destruct (N.eqb_spec c 39); [exfalso; apply Hc; simpl; auto 6|].
    simpl. f_equal. apply IH. intros x Hx. apply H. now right.
  - intros u. unfold escapeHtml. apply flat_map_app.
Qed.

Lemma escapeHtml_is_safe_witness :
  escapeHtml (str "example.org") = str "example.org".
Proof.
  apply (proj1 (proj2 (escapeHtml_is_safe (str "example.org")))).
  intros x Hx. vm_compute in Hx. vm_compute.
  intuition (subst; discriminate).
Defined.

Ltac split_unit c :=
  destruct (N.eqb_spec c 38); [subst c|];
  [|destruct (N.eqb_spec c 60); [subst c|];
    [|destruct (N.eqb_spec c 62); [subst c|];
      [|destruct (N.eqb_spec c 34); [subst c|];
        [|destruct (N.eqb_spec c 39); [subst c|]]]]].

(** Escaping loses nothing: two texts with the same escaped form are the
    same text. *)
Theorem escapeHtml_is_injective : forall a b : text,
  escapeHtml a = escapeHtml b -> a = b.
Proof.
  unfold escapeHtml.
  induction a as [|x a IH]; intros [|y b] H.
  - reflexivity.
  - exfalso. simpl in H. unfold escape_unit in H.
    split_unit y; discriminate.
  - exfalso. simpl in H. unfold escape_unit in H.
    split_unit x; discriminate.
  - simpl in H. unfold escape_unit in H.
    split_unit x; split_unit y;
      cbn [N.eqb Pos.eqb e_amp e_lt e_gt e_quot e_apos app] in H;
      try discriminate;
      try (injection H as H; f_equal; now apply IH);
      try (injection H as E H; congruence);
      try (injection H as E H; subst; f_equal; now apply IH).
Qed.

Lemma escapeHtml_is_injective_witness :
  str "a<b" = str "a<b".
Proof.
  apply escapeHtml_is_injective. reflexivity.
Defined.

End PopupFacts.

(** ** Relative times and the whitespace of the content script *)

Module ViewFacts.
Import Extractor Popup PopupFacts Samples MoreSamples.

Local Open Scope Z_scope.

(** The label of a history row. An entry less than a minute old, or dated
    in the future, reads Just now; up to a week the label counts whole
    minutes (1 to 59), hours (1 to 23) or days (1 to 6), never zero of
    them; from a week on it is the date in the format of the locale. *)
Theorem relative_time_bounds (toLocaleDateString : Z -> text)
    (now timestamp : Z) :
  let age := now - timestamp in
  let label := getTimeAgo toLocaleDateString now timestamp in
  (age < 60000 -> label = s_just_now)
  /\ (60000 <= age < 3600000 ->
      exists n, 1 <= n <= 59 /\ n = age / 60000
                /\ label = decimal n ++ s_minutes_ago)
  /\ (3600000 <= age < 86400000 ->
      exists n, 1 <= n <= 23 /\ n = age / 3600000
                /\ label = decimal n ++ s_hours_ago)
  /\ (86400000 <= age < 604800000 ->
      exists n, 1 <= n <= 6 /\ n = age / 86400000
                /\ label = decimal n ++ s_days_ago)
  /\ (604800000 <= age -> label = toLocaleDateString timestamp).
Proof.
  intros age label. unfold label, getTimeAgo. fold age.
  assert (D60 : age / 1000 / 60 = age / 60000)
    by (rewrite Z.div_div by lia; reflexivity).
  assert (D3600 : age / 1000 / 3600 = age / 3600000)
    by (rewrite Z.div_div by lia; reflexivity).
  assert (D86400 : age / 1000 / 86400 = age / 86400000)
    by (rewrite Z.div_div by lia; reflexivity).
  rewrite D60, D3600, D86400.
  destruct (Z.ltb_spec (age / 1000) 60) as [H1|H1];
    [|destruct (Z.ltb_spec (age / 1000) 3600) as [H2|H2];
      [|destruct (Z.ltb_spec (age / 1000) 86400) as [H3|H3];
        [|destruct (Z.ltb_spec (age / 1000) 604800) as [H4|H4]]]];
    repeat split; intros H;
    try (exfalso; Z.to_euclidean_division_equations; lia);
    try reflexivity;
    eexists; (split; [|split; [reflexivity|reflexivity]]);
    Z.to_euclidean_division_equations; lia.
Qed.

Lemma relative_time_bounds_witness :
  getTimeAgo (fun _ => []) 7200000 0 = str "2 hours ago"
  /\ getTimeAgo (fun _ => []) 0 5000 = str "Just now".
Proof.
  destruct (relative_time_bounds (fun _ => []) 7200000 0)
    as (_ & _ & H & _).
  destruct (relative_time_bounds (fun _ => []) 0 5000) as (K & _).
  split.
  - destruct H as (n & _ & E & L); [lia|]. rewrite L, E. reflexivity.
  - apply K. lia.
Defined.

Local Close Scope Z_scope.

Lemma collapse_only_spaces x : forall s r,
  In x (collapse_from r s) -> is_space x = true -> x = c_space.
Proof.
  induction s as [|c s IH]; intros r H Hx; [destruct H|].
  simpl in H. destruct (is_space c) eqn:Hc.
  - destruct r.
    + eauto.
    + destruct H as [<-|H]; [reflexivity | eauto].
  - destruct H as [<-|H]; [congruence | eauto].
Qed.

Lemma collapse_after_run : forall s c l,
  collapse_from true s = c :: l -> is_space c = false.
Proof.
  induction s as [|x s IH]; intros c l H; simpl in H; [discriminate|].
  destruct (is_space x) eqn:Hx; [eauto|].
  now injection H as <- _.
Qed.

Lemma collapse_no_double : forall s r a b,
  collapse_from r s <> a ++ c_space :: c_space :: b.
Proof.
  induction s as [|c s IH]; intros r a b H; simpl in H.
  - now destruct a.
  - destruct (is_space c) eqn:Hc.
    + destruct r; [now apply IH in H|].
      destruct a as [|x a]; simpl in H.
      * assert (K : collapse_from true s = c_space :: b) by congruence.
        apply collapse_after_run in K. discriminate.
      * assert (K : collapse_from true s = a ++ c_space :: c_space :: b)
          by congruence.
        now apply IH in K.
    + destruct a as [|x a]; simpl in H.
      * assert (K : c = c_space) by congruence.
        subst c. discriminate.
      * assert (K : collapse_from false s = a ++ c_space :: c_space :: b)
          by congruence.
        now apply IH in K.
Qed.

Lemma squeeze_without_newline : forall x,
  ~ In c_nl x -> squeeze_newlines 0 x = x.
Proof.
  induction x as [|c x IH]; intros H; [reflexivity|].
  simpl. destruct (N.eqb_spec c c_nl) as [->|Hne].
  - exfalso. apply H. now left.
  - simpl. f_equal. apply IH. intros K. apply H. now right.
Qed.

Lemma clean_up_is_collapse t : clean_up t = trim (collapse_ws t).
Proof.
  unfold clean_up. rewrite squeeze_without_newline; [reflexivity|].
  intros H. apply collapse_only_spaces in H; [discriminate | reflexivity].
Qed.

(** A trimmed string is a piece of the string. *)
Lemma trim_factor x : exists p q, x = p ++ trim x ++ q.
Proof.
  unfold trim.
  destruct (drop_while_suffix is_space x) as (w & E).
  destruct (drop_while_suffix is_space (rev (drop_while is_space x)))
    as (w' & E').
  exists w, (rev w').
  rewrite <- rev_app_distr, <- E', rev_involutive. exact E.
Qed.

Lemma extracted_is_piece doc :
  exists t p q,
    collapse_ws t = p ++ extractArticleText doc ++ q.
Proof.
  unfold extractArticleText.
  set (t := if insubstantial 200 (scan_selectors doc cs_selectors [])
            then body_innerText doc
            else scan_selectors doc cs_selectors []).
  exists t. rewrite clean_up_is_collapse.
  destruct (trim_factor (collapse_ws t)) as (p & q & E).
  exists p, (skipn 5000 (trim (collapse_ws t)) ++ q).
  replace (firstn 5000 (trim (collapse_ws t))
             ++ skipn 5000 (trim (collapse_ws t)) ++ q)
    with (trim (collapse_ws t) ++ q)
    by (now rewrite app_assoc, firstn_skipn).
  exact E.
Qed.

(** What the content script returns is whitespace-normalized: its only
    whitespace is the plain space, never two in a row and never at the
    start. The second replacement of its clean-up, for runs of three line
    feeds, never finds one, because the first replacement has turned every
    line feed into a space. *)
Theorem content_script_whitespace (doc : document) :
  (forall t, clean_up t = trim (collapse_ws t))
  /\ (forall x, In x (extractArticleText doc) ->
                is_space x = true -> x = c_space)
  /\ (forall a b, extractArticleText doc <> a ++ c_space :: c_space :: b)
  /\ (forall c r, extractArticleText doc = c :: r -> is_space c = false).
Proof.
  split; [exact clean_up_is_collapse|].
  destruct (extracted_is_piece doc) as (t & p & q & E).
  split; [|split].
  - intros x Hx Hs. apply (@collapse_only_spaces x t false); [|exact Hs].
    change (collapse_from false t) with (collapse_ws t). rewrite E.
    apply in_or_app. right. apply in_or_app. now left.
  - intros a b H. apply (@collapse_no_double t false (p ++ a) (b ++ q)).
    change (collapse_from false t) with (collapse_ws t).
    rewrite E, H, <- !app_assoc. reflexivity.
  - intros c r H. unfold extractArticleText in H.
    rewrite clean_up_is_collapse in H.
    destruct (trim (collapse_ws
                (if insubstantial 200 (scan_selectors doc cs_selectors [])
                 then body_innerText doc
                 else scan_selectors doc cs_selectors [])))
      as [|d k] eqn:T; [discriminate|].
    simpl in H. injection H as <- _.
    exact (proj1 (trim_ends _ T)).
Qed.

Lemma content_script_whitespace_witness :
  clean_up (js " a ~~~~ b  ") = js "a b".
Proof.
  rewrite (proj1 (content_script_whitespace page_short_article)).
  reflexivity.
Defined.

End ViewFacts.
